(** * Rodeo file service: a shallow embedding of [src/node/services/files.js]

    The module keeps one piece of shared state, the object [fileWatchers]
    that maps a requester identity to its chokidar watcher, and a handful
    of wrappers around [fs], [path] and [os].  JavaScript objects are finite
    maps from property names to values, the watchers live in a store that
    is addressed by handles (so that closing a watcher is seen through every
    reference to it), and every function that logs, throws or touches
    [fileWatchers] is a computation in a state-and-exception monad. *)

From Stdlib Require Import Ascii String ZArith.
From stdpp Require Import base option list strings gmap fin_maps.

Open Scope string_scope.
Open Scope list_scope.
Open Scope nat_scope.

(** ** JavaScript values *)

(** A method is represented by the value its call returns on the object
    that holds it: [fs.Stats.prototype.isDirectory] of a directory is
    [VFun (VBool true)]. *)
#[warnings="-register-all"]
Inductive value :=
  | VUndefined
  | VNull
  | VBool (b : bool)
  | VNum (n : Z)
  | VStr (s : string)
  | VFun (returns : value)
  | VObj (props : gmap string value)
  | VArr (items : list value).

Abbreviation obj := (gmap string value).

(** [o[k]]: a property that is not there reads as [undefined]. *)
Definition get (o : obj) (k : string) : value := default VUndefined (o !! k).

(** [v !== undefined] *)
Definition defined (v : value) : bool :=
  match v with VUndefined => false | _ => true end.

(** The truthiness test of [if (v)]. *)
Definition truthy (v : value) : bool :=
  match v with
  | VUndefined | VNull => false
  | VBool b => b
  | VNum n => negb (n =? 0)%Z
  | VStr s => negb (String.eqb s "")
  | VFun _ | VObj _ | VArr _ => true
  end.

(** lodash [_.result(object, key, defaultValue)]: the property, the default
    when the property is [undefined], and the result of the call when the
    value found is a function. *)
Definition result (o : obj) (k : string) (dflt : value) : value :=
  let v := match get o k with VUndefined => dflt | v => v end in
  match v with VFun r => r | _ => v end.

(** lodash [_.assign(target, source)]: the own properties of [source]
    overwrite those of [target]. *)
Definition assign (target source : obj) : obj := source ∪ target.

(** lodash [_.compact(array)]: drop the falsy items. *)
Definition compact (l : list value) : list value :=
  filter (λ v, truthy v = true) l.

(** ** Strings *)

(** lodash [_.startsWith(str, target)] *)
Fixpoint startsWith (str target : string) {struct target} : bool :=
  match target, str with
  | EmptyString, _ => true
  | String _ _, EmptyString => false
  | String c t, String d s => Ascii.eqb c d && startsWith s t
  end.

(** [str.substr(from)] *)
Fixpoint substr (str : string) (from : nat) {struct from} : string :=
  match from, str with
  | O, _ => str
  | S _, EmptyString => EmptyString
  | S n, String _ s => substr s n
  end.

(** The replacement text of [String.prototype.replace] when the second
    argument is a string and the pattern has no capture group: [$$] is a
    dollar sign, [$&] the matched text, [$`] the text before the match
    and [$'] the text after it; any other dollar sign stands for itself. *)
Fixpoint substitution (repl matched before after : string) : string :=
  match repl with
  | EmptyString => EmptyString
  | String c r =>
      let literal := String c (substitution r matched before after) in
      if Ascii.eqb c "$" then
        match r with
        | String d r' =>
            if Ascii.eqb d "$" then String d (substitution r' matched before after)
            else if Ascii.eqb d "&" then matched +:+ substitution r' matched before after
            else if Ascii.eqb d "`" then before +:+ substitution r' matched before after
            else if Ascii.eqb d "'" then after +:+ substitution r' matched before after
            else literal
        | EmptyString => literal
        end
      else literal
  end.

(** No dollar sign in [s]. *)
Fixpoint plain (s : string) : bool :=
  match s with
  | EmptyString => true
  | String c r => negb (Ascii.eqb c "$") && plain r
  end.

(** [str.replace(/^tok/, repl)] for a literal token [tok]. *)
Definition replace_at_start (tok repl str : string) : string :=
  if startsWith str tok then
    let after := substr str (String.length tok) in
    substitution repl tok "" after +:+ after
  else str.

(** A string of JavaScript is a sequence of UTF-16 code units.  The strings
    of this development hold the UTF-8 bytes of such a sequence, which is
    how a path reaches the file system; [units] gives the code units back.
    A character outside the basic plane is four bytes and two code units,
    a surrogate pair.  A byte that does not begin a well-formed sequence is
    the text of no string; it is read as one unit, U+FFFD. *)
Definition continuation (c : ascii) : option N :=
  let n := N_of_ascii c in
  if ((128 <=? n) && (n <? 192))%N then Some (n - 128)%N else None.

Definition replacement : N := 65533%N.

Fixpoint units (s : string) : list N :=
  match s with
  | EmptyString => []
  | String a s1 =>
      let n := N_of_ascii a in
      let malformed := replacement :: units s1 in
      if (n <? 128)%N then n :: units s1
      else
        match s1 with
        | String b s2 =>
            match continuation b with
            | Some x =>
                if ((192 <=? n) && (n <? 224))%N then
                  let cp := ((n - 192) * 64 + x)%N in
                  if (128 <=? cp)%N then cp :: units s2 else malformed
                else
                  match s2 with
                  | String c s3 =>
                      match continuation c with
                      | Some y =>
                          if ((224 <=? n) && (n <? 240))%N then
                            let cp := ((n - 224) * 4096 + x * 64 + y)%N in
                            if ((2048 <=? cp) &&
                                negb ((55296 <=? cp) && (cp <? 57344)))%N
                            then cp :: units s3 else malformed
                          else
                            match s3 with
                            | String d s4 =>
                                match continuation d with
                                | Some z =>
                                    let cp := ((n - 240) * 262144 + x * 4096
                                               + y * 64 + z)%N in
                                    if ((240 <=? n) && (65536 <=? cp) &&
                                        (cp <? 1114112))%N
                                    then (55296 + (cp - 65536) / 1024)%N
                                         :: (56320 + (cp - 65536) mod 1024)%N
                                         :: units s4
                                    else malformed
                                | None => malformed
                                end
                            | EmptyString => malformed
                            end
                      | None => malformed
                      end
                  | EmptyString => malformed
                  end
            | None => malformed
            end
        | EmptyString => malformed
        end
  end.

(** The strings that are their own code units, byte for byte. *)
Fixpoint ascii_only (s : string) : bool :=
  match s with
  | EmptyString => true
  | String c r => (N_of_ascii c <? 128)%N && ascii_only r
  end.

(** ** Node's [path] module, POSIX flavour *)

Module Path.

(** The pieces of a path between its slashes. *)
Fixpoint segments (s : string) : list string :=
  match s with
  | EmptyString => [EmptyString]
  | String c r =>
      if Ascii.eqb c "/"%char then EmptyString :: segments r
      else match segments r with
           | seg :: rest => String c seg :: rest
           | [] => [String c EmptyString]
           end
  end.

Fixpoint unsegments (l : list string) : string :=
  match l with
  | [] => EmptyString
  | [seg] => seg
  | seg :: rest => seg +:+ "/" +:+ unsegments rest
  end.

(** One step of [normalizeString]: [stack] holds the segments kept so
    far, the last one first. *)
Definition push_segment (allowAboveRoot : bool) (stack : list string)
    (seg : string) : list string :=
  if String.eqb seg "" || String.eqb seg "." then stack
  else if String.eqb seg ".." then
    match stack with
    | top :: below =>
        if String.eqb top ".." then seg :: stack else below
    | [] => if allowAboveRoot then [seg] else []
    end
  else seg :: stack.

Definition normalizeString (p : string) (allowAboveRoot : bool) : string :=
  unsegments (rev (fold_left (push_segment allowAboveRoot) (segments p) [])).

Fixpoint endsWithSlash (s : string) : bool :=
  match s with
  | EmptyString => false
  | String c EmptyString => Ascii.eqb c "/"%char
  | String _ r => endsWithSlash r
  end.

(** [path.posix.normalize] *)
Definition normalize (p : string) : string :=
  if String.eqb p "" then "."
  else
    let isAbsolute := startsWith p "/" in
    let trailingSeparator := endsWithSlash p in
    let q := normalizeString p (negb isAbsolute) in
    if String.eqb q "" then
      if isAbsolute then "/" else if trailingSeparator then "./" else "."
    else
      let q := if trailingSeparator then q +:+ "/" else q in
      if isAbsolute then "/" +:+ q else q.

(** [path.posix.join(...args)]: the non-empty arguments, a slash between
    them, normalized. *)
Definition join (args : list string) : string :=
  match filter (λ a, a ≠ "") args with
  | [] => "."
  | parts => normalize (unsegments parts)
  end.

End Path.

(** ** The world outside the module *)

(** A call either returns or throws; a promise either resolves or rejects. *)
Inductive outcome (A : Type) :=
  | Returned (a : A)
  | Thrown (e : value).
Arguments Returned {A} a.
Arguments Thrown {A} e.

(** The result of [path.posix.parse]. *)
Record parsed_path := {
  root : string; dir : string; base : string; ext : string; name : string
}.

Definition parsed_object (p : parsed_path) : obj :=
  {[ "root" := VStr (root p); "dir" := VStr (dir p); "base" := VStr (base p);
     "ext" := VStr (ext p); "name" := VStr (name p) ]}.

(** What the operating system and the runtime answer during one call:
    the home directory, the file system as [fs] sees it, [JSON.parse], and
    [path.posix.parse], of which only the shape of the result matters. *)
Record node := {
  os_homedir : string;
  fs_readFileSync : string → outcome string;
  JSON_parse : string → outcome value;
  fs_readdir : string → outcome (list string);
  fs_lstat : string → outcome obj;
  fs_stat : string → outcome obj;
  path_posix_parse : string → parsed_path
}.

(** ** chokidar *)

(** The two patterns of the [ignored] option are searched anywhere in a
    path.  A regular expression without the [u] flag works on the code
    units of a string; [AnyChar] is the dot, which matches every code unit
    but the four line terminators: line feed, carriage return, U+2028 and
    U+2029. *)
Inductive atom :=
  | Lit (c : ascii)
  | OneOf (cs : list ascii)
  | AnyChar.

Abbreviation regex := (list atom).

Definition lineTerminator (u : N) : bool :=
  ((u =? 10) || (u =? 13) || (u =? 8232) || (u =? 8233))%N.

Definition atom_matches (a : atom) (u : N) : bool :=
  match a with
  | Lit d => (u =? N_of_ascii d)%N
  | OneOf cs => existsb (λ d, (u =? N_of_ascii d)%N) cs
  | AnyChar => negb (lineTerminator u)
  end.

Fixpoint matches_here (r : regex) (us : list N) : bool :=
  match r, us with
  | [], _ => true
  | _ :: _, [] => false
  | a :: r', u :: us' => atom_matches a u && matches_here r' us'
  end.

(** The search for a match that starts at any unit. *)
Fixpoint search (r : regex) (us : list N) : bool :=
  matches_here r us
  || match us with [] => false | _ :: us' => search r us' end.

(** [r.test(s)] *)
Definition test (r : regex) (s : string) : bool := search r (units s).

Record watch_options := {
  awaitWriteFinish : bool;
  persistent : bool;
  followSymlinks : bool;
  usePolling : bool;
  depth : nat;
  ignorePermissionErrors : bool;
  ignored : list regex;
  ignoreInitial : bool
}.

(** [fileTarget], documented as [string|Array]. *)
Inductive target :=
  | One (path : string)
  | Many (paths : list string).

Definition target_value (t : target) : value :=
  match t with
  | One p => VStr p
  | Many ps => VArr (VStr <$> ps)
  end.

(** A chokidar watcher.  [w_requester] is a ghost field: the identity given
    to the [startWatching] call that created the watcher.  [w_emitter] is
    the [ipcEmitter] the listener on ['all'] dispatches to, [w_listeners]
    the events that have a listener. *)
Record watcher := {
  w_requester : string;
  w_emitter : nat;
  w_targets : list target;
  w_options : watch_options;
  w_listeners : list string;
  w_closed : bool
}.

(** The calls made to chokidar, in program order. *)
Inductive call :=
  | CWatch (h : nat)
  | CClose (h : nat)
  | CAdd (h : nat) (t : target).

(** [fileWatchers] is a plain object, [{}]: a name that is not among its
    own keys is looked up in [Object.prototype]. *)
Definition objectPrototype : list string :=
  ["constructor"; "hasOwnProperty"; "isPrototypeOf"; "propertyIsEnumerable";
   "toLocaleString"; "toString"; "valueOf"; "__defineGetter__";
   "__defineSetter__"; "__lookupGetter__"; "__lookupSetter__"; "__proto__"].

Definition inherited (name : string) : bool :=
  existsb (String.eqb name) objectPrototype.

Arguments inherited : simpl never.

(** What [fileWatchers[name]] gives when it is not [undefined]. *)
Inductive property :=
  | Own (h : nat)
  | Inherited.

(** ** State and the monad *)

Record log_entry := { level : string; args : list value }.

(** [fileWatchers] holds the own keys of the object, with handles into
    [store], the watchers created so far; what a lookup finds beyond the
    own keys is in [lookup_watcher].  [sent] is what went through
    [ipcEmitter.send]. *)
Record state := {
  fileWatchers : gmap string nat;
  store : list watcher;
  calls : list call;
  logged : list log_entry;
  sent : list (nat * list value)
}.

Definition M (A : Type) : Type := state → outcome A * state.

#[global] Instance M_ret : MRet M := λ A a s, (Returned a, s).

#[global] Instance M_bind : MBind M := λ A B f m s,
  match m s with
  | (Returned a, s') => f a s'
  | (Thrown e, s') => (Thrown e, s')
  end.

Definition throw {A} (e : value) : M A := λ s, (Thrown e, s).

(** [try { m } catch (e) { handler e }], and [promise.catch(handler)]. *)
Definition try_catch {A} (m : M A) (handler : value → M A) : M A := λ s,
  match m s with
  | (Returned a, s') => (Returned a, s')
  | (Thrown e, s') => handler e s'
  end.

(** An asynchronous call of [fs] settles with what the file system says. *)
Definition settle {A} (r : outcome A) : M A := λ s, (r, s).

Definition TypeError (message : string) : value :=
  VObj {[ "name" := VStr "TypeError"; "message" := VStr message ]}.

(** The state with more lines in the log. *)
Definition append_log (s : state) (entries : list log_entry) : state :=
  {| fileWatchers := fileWatchers s; store := store s; calls := calls s;
     logged := logged s ++ entries; sent := sent s |}.

Definition log (lvl : string) (xs : list value) : M unit := λ s,
  (Returned (), append_log s [{| level := lvl; args := xs |}]).

Fixpoint mapM {A B} (f : A → M B) (l : list A) : M (list B) :=
  match l with
  | [] => mret []
  | x :: xs => y ← f x; ys ← mapM f xs; mret (y :: ys)
  end.

Section FileService.

Context (N : node).

(** *** [getJSONFileSafeSync] *)

Definition getJSONFileSafeSync (filePath : string) : M value :=
  try_catch
    (contents ← settle (fs_readFileSync N filePath);
     try_catch
       (settle (JSON_parse N contents))
       (λ e, log "warn" [VStr filePath; VStr "is not valid JSON"; e];;
             mret VNull))
    (λ ex, mret VNull).

(** *** [resolveHomeDirectory], [getWithHomeDirectoryShortName] *)

Definition resolveHomeDirectory (str : string) : string :=
  if startsWith str "~" || startsWith str "%HOME%" then
    let home := os_homedir N in
    replace_at_start "%HOME%" home (replace_at_start "~" home str)
  else str.

Definition getWithHomeDirectoryShortName (str : string) : string :=
  let home := os_homedir N in
  if startsWith str home then
    Path.join ["~"; substr str (String.length home)]
  else str.

(** *** [normalizeStats], [getStats] *)

(** The body of [normalizeStats] on an object, then [normalizeStats]
    itself, which lets a falsy argument through. *)
Definition normalizeObject (stats : obj) : obj :=
  let stats := <["isDirectory" := result stats "isDirectory" (VBool false)]> stats in
  let stats := <["isFile" := result stats "isFile" (VBool false)]> stats in
  let stats := <["isSymbolicLink" := result stats "isSymbolicLink" (VBool false)]> stats in
  stats.

Definition normalizeStats (stats : option obj) : option obj :=
  match stats with
  | Some stats => Some (normalizeObject stats)
  | None => None
  end.

Definition getStats (filename : string) : M (option obj) :=
  let filename := resolveHomeDirectory filename in
  stats ← try_catch
    (settle (fs_lstat N filename))
    (λ lstatEx,
       log "warn" [VStr "lstat failed"; VStr filename; lstatEx];;
       settle (fs_stat N filename));
  mret (normalizeStats (Some stats)).

(** *** [readDirectory] *)

(** The continuation of [getStats(fullPath)] for one entry.  Writing a
    property of [undefined] is a [TypeError]. *)
Definition readEntry (dirPath filename : string) : M value :=
  let fullPath := Path.join [dirPath; filename] in
  try_catch
    (fileStats ← getStats fullPath;
     match fileStats with
     | Some fileStats =>
         let fileStats := <["path" := VStr fullPath]> fileStats in
         let fileStats := assign fileStats (parsed_object (path_posix_parse N fullPath)) in
         mret (VObj fileStats)
     | None => throw (TypeError "Cannot set property 'path' of undefined")
     end)
    (λ statEx,
       log "warn" [VStr "getStats failed"; VStr filename; statEx];;
       mret VUndefined).

(** Bluebird's [.map] starts the entries together and keeps their results
    in the order of the input; here they run one after the other, which
    fixes the order of their log lines and nothing else. *)
Definition readDirectory (dirPath : string) : M (list value) :=
  let dirPath := resolveHomeDirectory dirPath in
  filenames ← settle (fs_readdir N dirPath);
  list ← mapM (readEntry dirPath) filenames;
  mret (compact list).

(** *** [dispatch], [getFileSystemChangeToken] *)

Definition dispatch (ipcEmitter : nat) (data : value) : M unit := λ s,
  (Returned (),
   {| fileWatchers := fileWatchers s; store := store s; calls := calls s;
      logged := logged s;
      sent := sent s ++ [(ipcEmitter, [VStr "dispatch"; VStr "files"; data])] |}).

Definition getFileSystemChangeToken (eventType filePath : string)
    (details : option obj) : M obj :=
  let details := normalizeStats details in
  let event : obj :=
    {[ "type" := VStr "FILE_SYSTEM_CHANGED";
       "eventType" := VStr eventType;
       "path" := VStr filePath ]} in
  match details with
  | Some d =>
      if defined (get d "isDirectory") then
        let d := normalizeObject d in
        let d := <["path" := VStr filePath]> d in
        let d := assign d (parsed_object (path_posix_parse N filePath)) in
        mret (<["details" := VObj d]> event)
      else
        log "info" [VStr "HEEEEEY"; VStr eventType; VStr filePath; VObj d];;
        mret event
  | None =>
      log "info" [VStr "HEEEEEY"; VStr eventType; VStr filePath; VUndefined];;
      mret event
  end.

(** The listener that [startWatching] puts on ['all']. *)
Definition on_all (ipcEmitter : nat) (eventType path : string)
    (details : option obj) : M unit :=
  event ← getFileSystemChangeToken eventType path details;
  log "info" [VStr "All event info:"; VObj event];;
  dispatch ipcEmitter (VObj event).

(** *** The watchers *)

Definition resolveTarget (fileTarget : target) : target :=
  match fileTarget with
  | Many paths => Many (resolveHomeDirectory <$> paths)
  | One path => One (resolveHomeDirectory path)
  end.

(** The options object of [startWatching]; the two patterns are
    [/[\/\\]\./] and [/rodeo.log/]. *)
Definition watchOptions : watch_options :=
  {| awaitWriteFinish := true;
     persistent := true;
     followSymlinks := false;
     usePolling := false;
     depth := 1;
     ignorePermissionErrors := false;
     ignored :=
       [ [OneOf ["/"%char; "\"%char]; Lit "."%char];
         [Lit "r"%char; Lit "o"%char; Lit "d"%char; Lit "e"%char;
          Lit "o"%char; AnyChar; Lit "l"%char; Lit "o"%char; Lit "g"%char] ];
     ignoreInitial := true |}.

(** The events [startWatching] listens to, in the order of its [.on]
    calls; the first seven listeners log, the last one is [on_all]. *)
Definition listenedEvents : list string :=
  ["add"; "change"; "unlink"; "addDir"; "unlinkDir"; "error"; "ready"; "all"].

Definition with_watchers (f : gmap string nat → gmap string nat) : M unit := λ s,
  (Returned (),
   {| fileWatchers := f (fileWatchers s); store := store s; calls := calls s;
      logged := logged s; sent := sent s |}).

(** [chokidar.watch(fileTarget, options)] followed by the [.on] calls:
    a new watcher at the next free handle. *)
Definition chokidar_watch (requesterId : string) (ipcEmitter : nat)
    (fileTarget : target) (options : watch_options) : M nat := λ s,
  let h := length (store s) in
  (Returned h,
   {| fileWatchers := fileWatchers s;
      store := store s ++ [{| w_requester := requesterId;
                              w_emitter := ipcEmitter;
                              w_targets := [fileTarget];
                              w_options := options;
                              w_listeners := listenedEvents;
                              w_closed := false |}];
      calls := calls s ++ [CWatch h];
      logged := logged s; sent := sent s |}).

(** [watcher.close()]: the native handles are released and the
    listeners removed. *)
Definition close_watcher (w : watcher) : watcher :=
  {| w_requester := w_requester w; w_emitter := w_emitter w;
     w_targets := w_targets w; w_options := w_options w;
     w_listeners := []; w_closed := true |}.

Definition watcher_close (h : nat) : M unit := λ s,
  (Returned (),
   {| fileWatchers := fileWatchers s;
      store := alter close_watcher h (store s);
      calls := calls s ++ [CClose h];
      logged := logged s; sent := sent s |}).

(** [watcher.add(fileTarget)]: chokidar marks the watcher as not closed
    before it takes the paths; the listeners are as they were. *)
Definition add_target (t : target) (w : watcher) : watcher :=
  {| w_requester := w_requester w; w_emitter := w_emitter w;
     w_targets := w_targets w ++ [t]; w_options := w_options w;
     w_listeners := w_listeners w; w_closed := false |}.

Definition watcher_add (h : nat) (t : target) : M unit := λ s,
  (Returned (),
   {| fileWatchers := fileWatchers s;
      store := alter (add_target t) h (store s);
      calls := calls s ++ [CAdd h t];
      logged := logged s; sent := sent s |}).

(** [fileWatchers[requesterId]]: an own key gives its watcher; a name that
    is not an own key is looked up in [Object.prototype], where it gives a
    function, or for [__proto__] the prototype itself, all of them truthy
    and none with a [close] or an [add]; any other name gives
    [undefined]. *)
Definition lookup_watcher (requesterId : string) : M (option property) := λ s,
  (Returned
     match fileWatchers s !! requesterId with
     | Some h => Some (Own h)
     | None => if inherited requesterId then Some Inherited else None
     end, s).

Definition all_watchers : M (list nat) := λ s,
  (Returned (snd <$> map_to_list (fileWatchers s)), s).

(** [if (requesterId)] on an optional string. *)
Definition given (requesterId : option string) : option string :=
  match requesterId with
  | Some id => if String.eqb id "" then None else Some id
  | None => None
  end.

(** [stopWatching].  With an identity, [fileWatchers[requesterId].close()]
    is a [TypeError] when nothing is registered under it: [undefined] has
    no properties, and what [Object.prototype] gives has no [close].
    Without one, [_.each] visits the own keys; the order of the visits is
    the order of [map_to_list] here. *)
Definition stopWatching (requesterId : option string) : M unit :=
  match given requesterId with
  | Some id =>
      w ← lookup_watcher id;
      match w with
      | Some (Own h) => watcher_close h;; with_watchers (delete id)
      | Some Inherited =>
          throw (TypeError "fileWatchers[requesterId].close is not a function")
      | None => throw (TypeError "Cannot read property 'close' of undefined")
      end
  | None =>
      hs ← all_watchers;
      mapM watcher_close hs;; mret ()
  end.

(** [startWatching].  The guard before the registration is passed by
    whatever [fileWatchers[requesterId]] gives that is truthy, a watcher or
    not.  The assignment that ends the function makes an own key; it is
    reached with a name of [Object.prototype] only when that name is an own
    key already, which no call of this module brings about. *)
Definition startWatching (ipcEmitter : nat) (requesterId : string)
    (fileTarget : target) : M unit :=
  let fileTarget := resolveTarget fileTarget in
  log "info" [VStr "startWatching"; VStr requesterId; target_value fileTarget];;
  watcher ← chokidar_watch requesterId ipcEmitter fileTarget watchOptions;
  registered ← lookup_watcher requesterId;
  (if registered is Some _ then stopWatching (Some requesterId) else mret ());;
  with_watchers <[requesterId := watcher]>.

Definition addWatching (requesterId : string) (fileTarget : target) : M unit :=
  let fileTarget := resolveTarget fileTarget in
  log "info" [VStr "addWatching"; VStr requesterId; target_value fileTarget];;
  registered ← lookup_watcher requesterId;
  match registered with
  | Some (Own h) => watcher_add h fileTarget
  | Some Inherited =>
      throw (TypeError "fileWatchers[requesterId].add is not a function")
  | None => mret ()
  end.

End FileService.

(** The state of the module when it has just been loaded. *)
Definition initial : state :=
  {| fileWatchers := ∅; store := []; calls := []; logged := []; sent := [] |}.

(** ** Words for the statements *)

Definition warning (xs : list value) : log_entry := {| level := "warn"; args := xs |}.

Section Listing.

Context (N : node).

(** What the promise of [getStats] settles with, and the lines it logs on
    the way; neither depends on the state the call starts in
    ([getStats_frame]). *)
Definition statResolution (fullPath : string) : outcome (option obj) :=
  fst (getStats N fullPath initial).

Definition statWarnings (fullPath : string) : list log_entry :=
  logged (snd (getStats N fullPath initial)).

(** The entries of a directory whose stat resolution succeeds. *)
Definition resolves (fullPath : string) : bool :=
  match statResolution fullPath with Returned (Some _) => true | _ => false end.

(** What [readDirectory] lists for one entry, if it lists it, and the
    lines the entry leaves in the log. *)
Definition entrySnapshot (dirPath filename : string) : option value :=
  let fullPath := Path.join [dirPath; filename] in
  match statResolution fullPath with
  | Returned (Some stats) =>
      Some (VObj (assign (<["path" := VStr fullPath]> stats)
                         (parsed_object (path_posix_parse N fullPath))))
  | _ => None
  end.

Definition entryWarnings (dirPath filename : string) : list log_entry :=
  logged (snd (readEntry N dirPath filename initial)).

End Listing.

(** A listed entry carries its path, the three indicators and the parts
    of its name. *)
Definition populated (v : value) : Prop :=
  ∃ o path, v = VObj o ∧ o !! "path" = Some (VStr path) ∧
    Forall (λ k, is_Some (o !! k))
      ["isDirectory"; "isFile"; "isSymbolicLink";
       "root"; "dir"; "base"; "ext"; "name"].

(** The watchers after [close()] on each of the handles [hs]. *)
Definition closed_by (hs : list nat) (st : list watcher) : list watcher :=
  foldl (λ st h, alter close_watcher h st) st hs.

Definition is_active (requesterId : string) (w : watcher) : bool :=
  String.eqb (w_requester w) requesterId && negb (w_closed w).

(** The handles of the watchers that were started for [requesterId] and
    are not closed. *)
Definition activeSessions (s : state) (requesterId : string) : list nat :=
  filter (λ h, is_active requesterId <$> store s !! h = Some true)
         (seq 0 (length (store s))).

(** Every registered handle is a watcher of the store, every watcher that
    is not closed is the one registered for its requester, and no own key
    is a name of [Object.prototype], which the code never registers. *)
Definition consistent (s : state) : Prop :=
  (∀ id h, fileWatchers s !! id = Some h → h < length (store s)) ∧
  (∀ h w, store s !! h = Some w → w_closed w = false →
     fileWatchers s !! w_requester w = Some h) ∧
  (∀ id h, fileWatchers s !! id = Some h → inherited id = false).

(** The watcher that [startWatching] creates. *)
Definition started (N : node) (requesterId : string) (ipcEmitter : nat)
    (fileTarget : target) : watcher :=
  {| w_requester := requesterId; w_emitter := ipcEmitter;
     w_targets := [resolveTarget N fileTarget]; w_options := watchOptions;
     w_listeners := listenedEvents; w_closed := false |}.

(** A relative path in the form [path.normalize] leaves alone: its
    segments are not empty and none is [.] or [..]. *)
Definition ordinary (seg : string) : bool :=
  negb (String.eqb seg "" || String.eqb seg "." || String.eqb seg "..").

Definition normal_form (p : string) : bool := forallb ordinary (Path.segments p).

(** The event before [details] is set. *)
Definition bareEvent (eventType filePath : string) : obj :=
  {[ "type" := VStr "FILE_SYSTEM_CHANGED";
     "eventType" := VStr eventType;
     "path" := VStr filePath ]}.

(** The [details] of an event for the raw object [d]. *)
Definition eventDetails (N : node) (filePath : string) (d : obj) : obj :=
  assign (<["path" := VStr filePath]> (normalizeObject (normalizeObject d)))
         (parsed_object (path_posix_parse N filePath)).

Section Reachable.

Context (N : node).

(** The calls that touch [fileWatchers], from the state of the module when
    it is loaded. *)
Inductive reachable : state → Prop :=
  | reachable_initial : reachable initial
  | reachable_start ipcEmitter requesterId t s :
      reachable s → reachable (snd (startWatching N ipcEmitter requesterId t s))
  | reachable_add requesterId t s :
      reachable s → reachable (snd (addWatching N requesterId t s))
  | reachable_stop requesterId s :
      reachable s → reachable (snd (stopWatching requesterId s)).

End Reachable.

(** ** A small world to run the functions in *)

Module Sample.

Definition ENOENT : value :=
  VObj {[ "code" := VStr "ENOENT" ]}.

Definition SyntaxError : value :=
  VObj {[ "name" := VStr "SyntaxError" ]}.

(** What [fs.lstat] resolves with for a regular file, a directory and a
    symbolic link. *)
Definition stats (isDir isFile isLink : bool) (size : Z) : obj :=
  {[ "size" := VNum size;
     "isDirectory" := VFun (VBool isDir);
     "isFile" := VFun (VBool isFile);
     "isSymbolicLink" := VFun (VBool isLink) ]}.

(** The name and the extension of a base: the extension starts at the
    last dot, unless that dot opens the base. *)
Fixpoint split_ext (b : string) : string * string :=
  match b with
  | EmptyString => (EmptyString, EmptyString)
  | String c r =>
      let '(n, e) := split_ext r in
      if String.eqb e "" then
        if Ascii.eqb c "." then (EmptyString, b) else (b, EmptyString)
      else (String c n, e)
  end.

(** A parse for paths in normal form: the base is the last segment. *)
Definition parse (p : string) : parsed_path :=
  let b := List.last (Path.segments p) "" in
  let '(n, e) := split_ext b in
  {| root := if startsWith p "/" then "/" else "";
     dir := Path.unsegments (removelast (Path.segments p));
     base := b;
     ext := if String.eqb n "" then "" else e;
     name := if String.eqb n "" then b else n |}.

(** Home is [/home/u]; [~/docs] holds the file [a.txt], the directory
    [sub], the name [gone] of an entry that was removed right after the
    enumeration, and [link], which only the following [stat] resolves.
    [~/ok.json] holds [{}] and [~/bad.json] holds an opening brace. *)
Definition world : node :=
  {| os_homedir := "/home/u";
     fs_readFileSync := λ p,
       if String.eqb p "/home/u/ok.json" then Returned "{}"
       else if String.eqb p "/home/u/bad.json" then Returned "{"
       else Thrown ENOENT;
     JSON_parse := λ text,
       if String.eqb text "{}" then Returned (VObj ∅) else Thrown SyntaxError;
     fs_readdir := λ p,
       if String.eqb p "/home/u/docs" then Returned ["a.txt"; "gone"; "sub"; "link"]
       else Thrown ENOENT;
     fs_lstat := λ p,
       if String.eqb p "/home/u/docs/a.txt" then Returned (stats false true false 12)
       else if String.eqb p "/home/u/docs/sub" then Returned (stats true false false 0)
       else Thrown ENOENT;
     fs_stat := λ p,
       if String.eqb p "/home/u/docs/a.txt" then Returned (stats false true false 12)
       else if String.eqb p "/home/u/docs/sub" then Returned (stats true false false 0)
       else if String.eqb p "/home/u/docs/link" then Returned (stats false true false 7)
       else Thrown ENOENT;
     path_posix_parse := parse |}.

(** The file viewer watches [~/docs]. *)
Definition watching : state :=
  snd (startWatching world 0 "file-viewer" (One "~/docs/*") initial).

End Sample.

(** ** Words for more statements *)

(** An object with the three methods of [fs.Stats], each returning a
    boolean. *)
Definition statsLike (o : obj) (isDir isFile isLink : bool) : Prop :=
  o !! "isDirectory" = Some (VFun (VBool isDir)) ∧
  o !! "isFile" = Some (VFun (VBool isFile)) ∧
  o !! "isSymbolicLink" = Some (VFun (VBool isLink)).

Definition indicators : list string := ["isDirectory"; "isFile"; "isSymbolicLink"].

(** The [path] of a listed entry. *)
Definition path_of (v : value) : value :=
  match v with VObj o => get o "path" | _ => VUndefined end.

(** The warning that [readDirectory] logs for a dropped entry. *)
Definition getStatsFailed (e : log_entry) : bool :=
  String.eqb (level e) "warn" &&
  match args e with
  | VStr message :: _ => String.eqb message "getStats failed"
  | _ => false
  end.

(** Every registered handle is a watcher that was started for the identity
    it is registered under. *)
Definition owned (s : state) : Prop :=
  ∀ id h, fileWatchers s !! id = Some h →
    ∃ w, store s !! h = Some w ∧ w_requester w = id.

(** What the calls of the module keep true of the registry: every
    registered handle is a watcher started for its identity, no own key is
    a name of [Object.prototype], and every watcher that is not closed and
    whose requester is not such a name is the one registered for its
    requester. *)
Definition sound (s : state) : Prop :=
  owned s ∧
  (∀ id h, fileWatchers s !! id = Some h → inherited id = false) ∧
  (∀ h w, store s !! h = Some w → w_closed w = false →
     inherited (w_requester w) = false →
     fileWatchers s !! w_requester w = Some h).

(** The paths of a target. *)
Definition target_paths (t : target) : list string :=
  match t with One p => [p] | Many ps => ps end.

(** chokidar ignores a path that one of the [ignored] patterns matches. *)
Definition ignoredPath (p : string) : bool :=
  existsb (λ r, test r p) (ignored watchOptions).

(** The properties that [getFileSystemChangeToken] writes into [details]. *)
Definition detailNames : list string :=
  ["path"; "root"; "dir"; "base"; "ext"; "name"].

(** ** The file viewer's actions

    The thunks of the file viewer, which list a directory and then ask for
    it to be watched.  The modules they import are not part of the sources
    at hand: what [fileService] answers and the action that
    [editorTabGroupActions.add] builds are parameters, and so is the part of
    the store's state the thunks read.  A thunk runs against the trace of
    what it dispatches, what it asks of [fileService] and what it writes to
    the console. *)

Module Viewer.

Inductive request :=
  | GetFiles (filePath : value)
  | GetFileStats (filePath : value)
  | StartWatching (requesterId target : string)
  | AddWatchingFiles (requesterId target : string).

Record imports := {
  fileService_getFiles : value → outcome obj;
  fileService_getFileStats : value → outcome value;
  fileService_startWatching : string → string → outcome unit;
  fileService_addWatchingFiles : string → string → outcome unit;
  editorTabGroupActions_add : value → value → value → value
}.

(** What [getState()] returns, as far as the thunks look into it. *)
Record appState := {
  fileView_path : value;
  editorTabGroups : list obj
}.

(** One thing a thunk does that the outside sees. *)
Inductive step :=
  | Dispatched (action : value)
  | Requested (r : request)
  | Wrote (method : string) (xs : list value).

(** [history] holds the steps in the order they are taken; the other three
    fields hold the steps of one kind each. *)
Record view := {
  dispatched : list value;
  requested : list request;
  console : list (string * list value);
  history : list step
}.

Definition V (A : Type) : Type := view → outcome A * view.

#[global] Instance V_ret : MRet V := λ A a v, (Returned a, v).

#[global] Instance V_bind : MBind V := λ A B f m v,
  match m v with
  | (Returned a, v') => f a v'
  | (Thrown e, v') => (Thrown e, v')
  end.

Definition raise {A} (e : value) : V A := λ v, (Thrown e, v).

(** [promise.catch(handler)] *)
Definition catch {A} (m : V A) (handler : value → V A) : V A := λ v,
  match m v with
  | (Returned a, v') => (Returned a, v')
  | (Thrown e, v') => handler e v'
  end.

(** [dispatch(action)] for a plain action, which [dispatch] returns. *)
Definition dispatch_action (action : value) : V value := λ v,
  (Returned action,
   {| dispatched := dispatched v ++ [action]; requested := requested v;
      console := console v; history := history v ++ [Dispatched action] |}).

(** A call of [fileService], and what its promise settles with. *)
Definition request_of {A} (r : request) (answer : outcome A) : V A := λ v,
  (answer,
   {| dispatched := dispatched v; requested := requested v ++ [r];
      console := console v; history := history v ++ [Requested r] |}).

Definition console_write (method : string) (xs : list value) : V unit := λ v,
  (Returned (),
   {| dispatched := dispatched v; requested := requested v;
      console := console v ++ [(method, xs)];
      history := history v ++ [Wrote method xs] |}).

(** [path.join(filePath, '*')], which throws on what is not a string. *)
Definition join_star (filePath : value) : V string :=
  match filePath with
  | VStr p => mret (Path.join [p; "*"])
  | _ => raise (TypeError "Path must be a string")
  end.

Definition requesterId : string := "file-viewer".

Section Actions.

Context (I : imports) (st : appState).

Definition selectViewedFile (file : value) : value :=
  VObj {[ "type" := VStr "SELECT_VIEWED_FILE"; "file" := file ]}.

Definition getViewedFiles (filePath : value) : V value :=
  console_write "log" [VStr "getViewedFiles"; filePath];;
  let filePath := if truthy filePath then filePath else fileView_path st in
  catch
    (result ← request_of (GetFiles filePath) (fileService_getFiles I filePath);
     dispatch_action
       (VObj (assign {[ "type" := VStr "SET_VIEWED_PATH";
                        "targetPath" := filePath ]} result));;
     target ← join_star filePath;
     request_of (StartWatching requesterId target)
                (fileService_startWatching I requesterId target);;
     mret (VObj result))
    (λ error, console_write "error" [error];; mret VUndefined).

Definition setViewedPath (filePath : value) : V value :=
  let filePath := if truthy filePath then filePath else fileView_path st in
  console_write "log" [VStr "setViewedPath, filePath"; filePath];;
  dispatch_action
    (VObj {[ "type" := VStr "SET_VIEWED_PATH"; "targetPath" := filePath ]});;
  catch
    (result ← request_of (GetFiles filePath) (fileService_getFiles I filePath);
     dispatch_action
       (VObj (assign {[ "type" := VStr "SET_VIEWED_PATH";
                        "targetPath" := filePath ]} result));;
     target ← join_star filePath;
     request_of (StartWatching requesterId target)
                (fileService_startWatching I requesterId target);;
     mret (VObj result))
    (λ error, console_write "error" [error];; mret VUndefined).

(** [dispatch] of a thunk runs it and returns what it returns. *)
Definition openViewedFile (file : obj) : V value :=
  if truthy (get file "isDirectory") then setViewedPath (get file "path")
  else
    match editorTabGroups st with
    | group :: _ =>
        let groupId := get group "groupId" in
        stats ← request_of (GetFileStats (get file "path"))
                           (fileService_getFileStats I (get file "path"));
        dispatch_action (editorTabGroupActions_add I groupId (get file "path") stats)
    | [] => mret VUndefined
    end.

(** [file && file.path] for [file = _.last(itemPath)]. *)
Definition last_path (itemPath : list obj) : value :=
  match last itemPath with
  | Some file => get file "path"
  | None => VUndefined
  end.

Definition expandFolder (itemPath : list obj) : V value :=
  let targetPath := last_path itemPath in
  catch
    (result ← request_of (GetFiles targetPath) (fileService_getFiles I targetPath);
     dispatch_action
       (VObj (assign {[ "type" := VStr "FILE_VIEWER_FOLDER_EXPANDED";
                        "itemPath" := VArr (VObj <$> itemPath);
                        "targetPath" := targetPath ]} result));;
     target ← join_star targetPath;
     request_of (AddWatchingFiles requesterId target)
                (fileService_addWatchingFiles I requesterId target);;
     mret (VObj result))
    (λ error, console_write "error" [error];; mret VUndefined).

Definition contractFolder (itemPath : list obj) : V value :=
  dispatch_action
    (VObj {[ "type" := VStr "FILE_VIEWER_FOLDER_CONTRACTED";
             "path" := last_path itemPath;
             "itemPath" := VArr (VObj <$> itemPath) ]}).

End Actions.

(** The path a thunk works on: its argument, or the viewed path of the
    state when the argument is falsy. *)
Definition effectivePath (st : appState) (filePath : value) : value :=
  if truthy filePath then filePath else fileView_path st.

Definition blank : view :=
  {| dispatched := []; requested := []; console := []; history := [] |}.

Definition is_start (r : request) : bool :=
  match r with StartWatching _ _ => true | _ => false end.

End Viewer.

(** ** More of the sample world *)

Module Tour.

(** The plot viewer starts watching beside the file viewer. *)
Definition both : state :=
  snd (startWatching Sample.world 1 "plots" (One "~/plots/*") Sample.watching).

(** A caller that gives the empty string for its identity. *)
Definition anonymous : state :=
  snd (startWatching Sample.world 2 "" (Many ["~/a"; "%HOME%/b"]) Sample.watching).

(** A [fileService] whose only directory is [/home/u/docs], and which
    watches whatever it is asked to. *)
Definition listing : obj :=
  {[ "path" := VStr "/home/u/docs"; "files" := VArr [] ]}.

Definition NotFound : value := VObj {[ "code" := VStr "ENOENT" ]}.

Definition imports : Viewer.imports :=
  {| Viewer.fileService_getFiles := λ p,
       match p with
       | VStr q => if String.eqb q "/home/u/docs" then Returned listing
                   else Thrown NotFound
       | _ => Thrown NotFound
       end;
     Viewer.fileService_getFileStats := λ p, Returned (VObj ∅);
     Viewer.fileService_startWatching := λ id target,
       if String.eqb target "/home/u/locked/*" then Thrown NotFound
       else Returned ();
     Viewer.fileService_addWatchingFiles := λ id target, Returned ();
     Viewer.editorTabGroupActions_add := λ groupId filePath stats,
       VObj {[ "type" := VStr "ADD_FILE"; "groupId" := groupId;
               "path" := filePath; "stats" := stats ]} |}.

Definition viewing : Viewer.appState :=
  {| Viewer.fileView_path := VStr "/home/u/docs"; Viewer.editorTabGroups := [] |}.

End Tour.

(** A string that is not in a list of strings. *)
Ltac not_listed :=
  let H := fresh in
  intros H; repeat (apply elem_of_cons in H as [H|H]; [done|]);
  by apply elem_of_nil in H.

(** Unfolding the monad of the viewer. *)
Ltac steps :=
  unfold mbind, Viewer.V_bind, mret, Viewer.V_ret, Viewer.catch, Viewer.raise,
    Viewer.dispatch_action, Viewer.request_of, Viewer.console_write,
    Viewer.join_star; cbn beta iota zeta;
  cbn [Viewer.dispatched Viewer.requested Viewer.console Viewer.history].

(** Unfolding the monad. *)
Ltac run :=
  unfold mbind, M_bind, mret, M_ret, try_catch, settle, throw, log; simpl.

(** * Properties *)

(** ** Strings and the home directory *)

Section Home.

Lemma startsWith_app (a b : string) : startsWith (a +:+ b) a = true.
Proof.
  induction a as [|c a IH]; simpl; [done|].
  by rewrite Ascii.eqb_refl, IH.
Qed.

Lemma substr_app (a b : string) : substr (a +:+ b) (String.length a) = b.
Proof. induction a as [|c a IH]; simpl; done. Qed.

Lemma substitution_plain (repl matched before after : string) :
  plain repl = true → substitution repl matched before after = repl.
Proof.
  induction repl as [|c r IH]; simpl; [done|].
  intros [Hc Hr]%andb_true_iff.
  apply negb_true_iff in Hc. rewrite Hc. by rewrite IH.
Qed.

Lemma startsWith_absolute (home rest tok : string) (c : ascii) :
  startsWith home "/" = true → c ≠ "/"%char →
  startsWith (home +:+ rest) (String c tok) = false.
Proof.
  destruct home as [|d home]; cbn -[Ascii.eqb]; [done|].
  destruct (Ascii.eqb_spec "/" d) as [<-|]; [|by intros [=]].
  intros _ Hc. change (String "/" home +:+ rest) with (String "/" (home +:+ rest)).
  cbn iota. by destruct (Ascii.eqb_spec c "/").
Qed.

Context (N : node).

Lemma resolveHomeDirectory_tilde (rest : string) :
  startsWith (os_homedir N) "/" = true → plain (os_homedir N) = true →
  resolveHomeDirectory N ("~" +:+ rest) = os_homedir N +:+ rest.
Proof.
  intros Habs Hplain. unfold resolveHomeDirectory.
  change (startsWith ("~" +:+ rest) "~") with true. cbn [orb].
  unfold replace_at_start at 2.
  change (startsWith ("~" +:+ rest) "~") with true.
  change (substr ("~" +:+ rest) (String.length "~")) with rest. cbn iota.
  rewrite (substitution_plain _ _ _ _ Hplain).
  unfold replace_at_start.
  by rewrite (startsWith_absolute _ _ _ "%"%char Habs).
Qed.

Lemma getWithHomeDirectoryShortName_home (rest : string) :
  getWithHomeDirectoryShortName N (os_homedir N +:+ rest) = Path.join ["~"; rest].
Proof.
  unfold getWithHomeDirectoryShortName.
  by rewrite startsWith_app, substr_app.
Qed.

Lemma resolveHomeDirectory_other (p : string) :
  startsWith p "~" = false → startsWith p "%HOME%" = false →
  resolveHomeDirectory N p = p.
Proof. intros H1 H2. unfold resolveHomeDirectory. by rewrite H1, H2. Qed.

End Home.

(** *** [path.join] on a few paths *)

Example join_entry : Path.join ["/home/u/docs"; "a.txt"] = "/home/u/docs/a.txt".
Proof. reflexivity. Qed.

Example join_collapses_slashes : Path.join ["~"; "//docs"] = "~/docs".
Proof. reflexivity. Qed.

Example join_keeps_trailing_slash : Path.join ["~"; "/docs/"] = "~/docs/".
Proof. reflexivity. Qed.

Example join_climbs : Path.join ["/a/b"; "../../../c"] = "/c".
Proof. reflexivity. Qed.

Example join_above_relative_root : Path.join ["a"; "../../b/./"] = "../b/".
Proof. reflexivity. Qed.

Example join_nothing : Path.join [""; ""] = ".".
Proof. reflexivity. Qed.

(** *** Paths that [path.join] leaves alone *)

Section Normal.

Lemma segments_cons (s : string) : ∃ seg rest, Path.segments s = seg :: rest.
Proof.
  induction s as [|c s (seg & rest & IH)]; simpl; [by eexists _, _|].
  destruct (Ascii.eqb c "/"); [by eexists _, _|].
  rewrite IH. by eexists _, _.
Qed.

Lemma unsegments_cons (seg seg' : string) (rest : list string) :
  Path.unsegments (seg :: seg' :: rest) =
  seg +:+ "/" +:+ Path.unsegments (seg' :: rest).
Proof. done. Qed.

Lemma unsegments_segments (s : string) : Path.unsegments (Path.segments s) = s.
Proof.
  induction s as [|c s IH]; [done|]. cbn [Path.segments].
  destruct (segments_cons s) as (seg & rest & Hs). rewrite Hs in *.
  destruct (Ascii.eqb_spec c "/") as [->|_].
  - rewrite unsegments_cons, IH. done.
  - destruct rest as [|seg' rest].
    + simpl in *. by rewrite IH.
    + rewrite unsegments_cons in *. rewrite <- IH. done.
Qed.

Lemma endsWithSlash_last (s : string) :
  Path.endsWithSlash s = true → last (Path.segments s) = Some "".
Proof.
  induction s as [|c s IH]; [done|].
  cbn [Path.endsWithSlash Path.segments].
  destruct s as [|d s].
  - intros ->. done.
  - intros Hs. specialize (IH Hs).
    destruct (segments_cons (String d s)) as (seg & rest & Hseg).
    rewrite Hseg in *.
    destruct (Ascii.eqb c "/"); [by rewrite last_cons, IH|].
    destruct rest as [|seg' rest].
    + injection IH as ->. pose proof (unsegments_segments (String d s)) as Hu.
      rewrite Hseg in Hu. done.
    + by rewrite !last_cons_cons in *.
Qed.

Lemma ordinary_push (allowAboveRoot : bool) (stack : list string) (seg : string) :
  ordinary seg = true → Path.push_segment allowAboveRoot stack seg = seg :: stack.
Proof.
  unfold ordinary, Path.push_segment.
  intros H%negb_true_iff. apply orb_false_iff in H as [H Hdd].
  by rewrite H, Hdd.
Qed.

Lemma fold_push_ordinary (allowAboveRoot : bool) (segs stack : list string) :
  forallb ordinary segs = true →
  fold_left (Path.push_segment allowAboveRoot) segs stack = rev segs ++ stack.
Proof.
  revert stack. induction segs as [|seg segs IH]; intros stack; [done|].
  cbn [forallb fold_left]. intros [Hseg Hsegs]%andb_true_iff.
  rewrite ordinary_push, IH by done. cbn [rev]. by rewrite <- app_assoc.
Qed.

Lemma normal_form_no_trailing (r : string) :
  normal_form r = true → Path.endsWithSlash (String "~" (String "/" (String "/" r))) = false.
Proof.
  intros Hn. destruct (Path.endsWithSlash _) eqn:He; [|done].
  apply endsWithSlash_last in He. cbn [Path.segments] in He.
  change (Ascii.eqb "~" "/") with false in He.
  change (Ascii.eqb "/" "/") with true in He. cbn iota in He.
  destruct (segments_cons r) as (seg & rest & Hs).
  unfold normal_form in Hn. rewrite Hs in *.
  rewrite !last_cons_cons in He.
  apply last_Some in He as [l' He].
  rewrite forallb_forall in Hn. specialize (Hn "").
  rewrite He in Hn. rewrite in_app_iff in Hn.
  by specialize (Hn (or_intror (or_introl eq_refl))).
Qed.

Lemma join_home_normal (r : string) :
  normal_form r = true → Path.join ["~"; "/" +:+ r] = "~" +:+ "/" +:+ r.
Proof.
  intros Hn. unfold Path.join.
  rewrite filter_cons_True by done. rewrite filter_cons_True by done.
  rewrite filter_nil.
  change (Path.unsegments ["~"; "/" +:+ r]) with (String "~" (String "/" (String "/" r))).
  unfold Path.normalize.
  change (String.eqb (String "~" (String "/" (String "/" r))) "") with false.
  change (startsWith (String "~" (String "/" (String "/" r))) "/") with false.
  cbv zeta. cbn iota.
  rewrite normal_form_no_trailing by done.
  unfold Path.normalizeString. cbn [Path.segments].
  change (Ascii.eqb "~" "/") with false.
  change (Ascii.eqb "/" "/") with true. cbn iota.
  cbn [fold_left]. change (Path.push_segment (negb false) [] "~") with ["~"].
  change (Path.push_segment (negb false) ["~"] "") with ["~"].
  rewrite fold_push_ordinary by done.
  rewrite rev_app_distr, rev_involutive. cbn [rev app].
  destruct (segments_cons r) as (seg & rest & Hs).
  pose proof (unsegments_segments r) as Hr. rewrite Hs in *.
  rewrite unsegments_cons, Hr. done.
Qed.

End Normal.

Section RoundTrip.
Context (N : node).

(** C7, as amended.  With an absolute home directory that has no dollar
    sign, shortening the resolved form of [~rest] gives
    [path.join('~', rest)]; that is [~rest] itself when [rest] is empty or a
    slash followed by a relative path in normal form; and a path that
    starts with neither [~] nor [%HOME%] is resolved to itself. *)
Theorem resolve_then_shorten (rest : string) :
  startsWith (os_homedir N) "/" = true → plain (os_homedir N) = true →
  getWithHomeDirectoryShortName N (resolveHomeDirectory N ("~" +:+ rest))
    = Path.join ["~"; rest] ∧
  (rest = "" ∨ (∃ r, rest = "/" +:+ r ∧ normal_form r = true) →
   getWithHomeDirectoryShortName N (resolveHomeDirectory N ("~" +:+ rest))
     = "~" +:+ rest) ∧
  (∀ p, startsWith p "~" = false → startsWith p "%HOME%" = false →
        resolveHomeDirectory N p = p).
Proof.
  intros Habs Hplain.
  rewrite resolveHomeDirectory_tilde, getWithHomeDirectoryShortName_home by done.
  split_and!.
  - done.
  - intros [->|(r & -> & Hr)]; [done|]. by apply join_home_normal.
  - apply resolveHomeDirectory_other.
Qed.
End RoundTrip.

Lemma append_log_nil s : append_log s [] = s.
Proof. destruct s. unfold append_log. simpl. by rewrite app_nil_r. Qed.

Lemma append_log_app s l1 l2 : append_log (append_log s l1) l2 = append_log s (l1 ++ l2).
Proof. unfold append_log. simpl. by rewrite app_assoc. Qed.

(** ** Reading files and directories *)

Section Files.

Context (N : node).

(** C9, as amended.  [getJSONFileSafeSync] never throws: an unreadable file
    gives [null] and leaves the log as it was; contents that are not valid
    JSON give [null] and one warning; valid contents give the parsed value
    and leave the log as it was. *)
Theorem getJSONFileSafeSync_lenient (filePath : string) (s : state) :
  (∀ ex, fs_readFileSync N filePath = Thrown ex →
     getJSONFileSafeSync N filePath s = (Returned VNull, s)) ∧
  (∀ contents e, fs_readFileSync N filePath = Returned contents →
     JSON_parse N contents = Thrown e →
     getJSONFileSafeSync N filePath s =
       (Returned VNull,
        append_log s [warning [VStr filePath; VStr "is not valid JSON"; e]])) ∧
  (∀ contents v, fs_readFileSync N filePath = Returned contents →
     JSON_parse N contents = Returned v →
     getJSONFileSafeSync N filePath s = (Returned v, s)).
Proof.
  unfold getJSONFileSafeSync. run.
  split_and!; [intros ex Hr | intros c e Hr Hp | intros c v Hr Hp];
    rewrite Hr; simpl; [done | by rewrite Hp | by rewrite Hp].
Qed.

Lemma getStats_run (filename : string) (s : state) :
  getStats N filename s =
  let f := resolveHomeDirectory N filename in
  match fs_lstat N f with
  | Returned o => (Returned (Some (normalizeObject o)), s)
  | Thrown lstatEx =>
      let s' := append_log s [warning [VStr "lstat failed"; VStr f; lstatEx]] in
      match fs_stat N f with
      | Returned o => (Returned (Some (normalizeObject o)), s')
      | Thrown e => (Thrown e, s')
      end
  end.
Proof.
  unfold getStats. run.
  destruct (fs_lstat N _); simpl; [done|].
  by destruct (fs_stat N _).
Qed.

(** C4.  [getStats] settles with the normalized result of [lstat] when
    [lstat] succeeds, and logs nothing; when [lstat] fails it logs one
    warning and settles with the normalized result of [stat], or rejects
    with the error of [stat]; it rejects only when both fail. *)
Theorem getStats_policy (filename : string) (s : state) :
  let f := resolveHomeDirectory N filename in
  (∀ o, fs_lstat N f = Returned o →
     getStats N filename s = (Returned (Some (normalizeObject o)), s)) ∧
  (∀ lstatEx o, fs_lstat N f = Thrown lstatEx → fs_stat N f = Returned o →
     getStats N filename s =
       (Returned (Some (normalizeObject o)),
        append_log s [warning [VStr "lstat failed"; VStr f; lstatEx]])) ∧
  (∀ lstatEx e, fs_lstat N f = Thrown lstatEx → fs_stat N f = Thrown e →
     getStats N filename s =
       (Thrown e, append_log s [warning [VStr "lstat failed"; VStr f; lstatEx]])) ∧
  (∀ e s', getStats N filename s = (Thrown e, s') →
     (∃ lstatEx, fs_lstat N f = Thrown lstatEx) ∧ fs_stat N f = Thrown e).
Proof.
  rewrite getStats_run. cbv zeta.
  generalize (resolveHomeDirectory N filename). intros f.
  split_and!.
  - by intros o ->.
  - by intros e o -> ->.
  - by intros e e' -> ->.
  - intros e s'. destruct (fs_lstat N f) as [o|e1]; [done|].
    destruct (fs_stat N f) as [o|e2]; [done|].
    intros [= -> _]. eauto.
Qed.

Lemma getStats_frame (filename : string) (s : state) :
  getStats N filename s =
  (statResolution N filename, append_log s (statWarnings N filename)).
Proof.
  unfold statResolution, statWarnings. rewrite !getStats_run. cbv zeta.
  destruct (fs_lstat N _); simpl; [by rewrite append_log_nil|].
  by destruct (fs_stat N _).
Qed.

Lemma statResolution_object (filename : string) :
  statResolution N filename ≠ Returned None.
Proof.
  unfold statResolution. rewrite getStats_run. cbv zeta.
  destruct (fs_lstat N _); simpl; [done|]. by destruct (fs_stat N _).
Qed.

Lemma resolves_snapshot (dirPath filename : string) :
  resolves N (Path.join [dirPath; filename]) = false ↔
  entrySnapshot N dirPath filename = None.
Proof.
  unfold resolves, entrySnapshot.
  by destruct (statResolution N _) as [[o|]|e].
Qed.

Lemma readEntry_frame (dirPath filename : string) (s : state) :
  readEntry N dirPath filename s =
  (Returned (default VUndefined (entrySnapshot N dirPath filename)),
   append_log s (entryWarnings N dirPath filename)).
Proof.
  unfold entryWarnings, entrySnapshot, readEntry.
  unfold try_catch, mbind, M_bind. rewrite !getStats_frame.
  pose proof (statResolution_object (Path.join [dirPath; filename])) as Hobj.
  destruct (statResolution N _) as [[o|]|e]; [| done |]; run.
  - done.
  - by rewrite append_log_app.
Qed.

Lemma entryWarnings_dropped (dirPath filename : string) :
  entrySnapshot N dirPath filename = None →
  ∃ statEx, warning [VStr "getStats failed"; VStr filename; statEx]
            ∈ entryWarnings N dirPath filename.
Proof.
  unfold entryWarnings, entrySnapshot, readEntry.
  unfold try_catch, mbind, M_bind. rewrite getStats_frame.
  pose proof (statResolution_object (Path.join [dirPath; filename])) as Hobj.
  destruct (statResolution N _) as [[o|]|e]; [done | done |]; run.
  intros _. exists e. apply elem_of_app. right. apply list_elem_of_singleton. done.
Qed.

Lemma mapM_readEntry (dirPath : string) (filenames : list string) (s : state) :
  mapM (readEntry N dirPath) filenames s =
  (Returned ((λ n, default VUndefined (entrySnapshot N dirPath n)) <$> filenames),
   append_log s (mjoin (entryWarnings N dirPath <$> filenames))).
Proof.
  revert s. induction filenames as [|n ns IH]; intros s; simpl.
  - by rewrite append_log_nil.
  - unfold mbind, M_bind at 1. rewrite readEntry_frame.
    unfold mbind, M_bind at 1. rewrite IH. unfold mret, M_ret.
    by rewrite append_log_app.
Qed.

Lemma entrySnapshot_truthy (dirPath filename : string) (v : value) :
  entrySnapshot N dirPath filename = Some v → truthy v = true.
Proof.
  unfold entrySnapshot. destruct (statResolution N _) as [[o|]|e]; [|done..].
  by intros [= <-].
Qed.

Lemma compact_snapshots (dirPath : string) (filenames : list string) :
  compact ((λ n, default VUndefined (entrySnapshot N dirPath n)) <$> filenames)
  = omap (entrySnapshot N dirPath) filenames.
Proof.
  unfold compact. induction filenames as [|n ns IH]; [done|].
  rewrite fmap_cons. cbn [omap list_omap].
  destruct (entrySnapshot N dirPath n) as [v|] eqn:Hn; cbn [default].
  - rewrite filter_cons_True by eauto using entrySnapshot_truthy. by rewrite IH.
  - rewrite filter_cons_False by done. by rewrite IH.
Qed.

Lemma length_omap_dropped {A B} (f : A → option B) (l : list A) :
  length (omap f l) = length l - length (filter (λ x, f x = None) l).
Proof.
  induction l as [|x l IH]; [done|].
  pose proof (length_filter (λ x, f x = None) l) as Hle.
  cbn [omap list_omap]. fold (omap f l).
  destruct (f x) eqn:Hx.
  - rewrite filter_cons_False by (rewrite Hx; done). cbn [length]. lia.
  - rewrite filter_cons_True by done. cbn [length]. lia.
Qed.

Lemma normalizeObject_indicators (o : obj) :
  Forall (λ k, is_Some (normalizeObject o !! k))
    ["isDirectory"; "isFile"; "isSymbolicLink"].
Proof.
  unfold normalizeObject. repeat constructor; simplify_map_eq; eauto.
Qed.

Lemma entrySnapshot_populated (dirPath filename : string) (v : value) :
  entrySnapshot N dirPath filename = Some v → populated v.
Proof.
  unfold entrySnapshot, statResolution. rewrite getStats_run. cbv zeta.
  set (full := Path.join [dirPath; filename]).
  assert (∀ o, populated (VObj (assign (<["path" := VStr full]> (normalizeObject o))
                         (parsed_object (path_posix_parse N full))))) as Hpop.
  { intros o. eexists _, full. split; [done|]. unfold assign, parsed_object, normalizeObject.
    split.
    - apply lookup_union_Some_raw. right. by simplify_map_eq.
    - repeat constructor.
      all: try (eexists; apply lookup_union_Some_raw; left; by simplify_map_eq).
      all: eexists; apply lookup_union_Some_raw; right; by simplify_map_eq. }
  destruct (fs_lstat N _); simpl; [intros [= <-]; apply Hpop|].
  destruct (fs_stat N _); simpl; [intros [= <-]; apply Hpop|done].
Qed.

(** C3.  [readDirectory] rejects exactly when [readdir] does.  Otherwise
    it resolves with the snapshots of the entries whose stat resolution
    succeeds, in the order of the enumeration: as many as there are entries
    less the dropped ones, each with its path, indicators and name parts,
    and every dropped entry has its warning in the log. *)
Theorem readDirectory_listing (dirPath : string) (s : state) :
  let d := resolveHomeDirectory N dirPath in
  (∀ e, fs_readdir N d = Thrown e → readDirectory N dirPath s = (Thrown e, s)) ∧
  (∀ filenames, fs_readdir N d = Returned filenames →
     let listing := omap (entrySnapshot N d) filenames in
     let dropped := filter (λ n, resolves N (Path.join [d; n]) = false) filenames in
     ∃ s', readDirectory N dirPath s = (Returned listing, s') ∧
       length listing = length filenames - length dropped ∧
       Forall populated listing ∧
       (∀ n, n ∈ dropped →
          ∃ statEx, warning [VStr "getStats failed"; VStr n; statEx] ∈ logged s')) ∧
  (∀ e s', readDirectory N dirPath s = (Thrown e, s') → fs_readdir N d = Thrown e).
Proof.
  cbv zeta. unfold readDirectory.
  generalize (resolveHomeDirectory N dirPath). intros d.
  unfold mbind, M_bind at 1. unfold settle.
  split_and!.
  - by intros e ->.
  - intros filenames ->. unfold mbind, M_bind. rewrite mapM_readEntry.
    unfold mret, M_ret. rewrite compact_snapshots.
    eexists. split; [done|]. split_and!.
    + rewrite length_omap_dropped. f_equal. f_equal.
      apply list_filter_iff. intros n. symmetry. apply resolves_snapshot.
    + apply Forall_forall. intros v [n [_ Hn]]%list_elem_of_omap.
      by eapply entrySnapshot_populated.
    + intros n [Hdrop Hin]%list_elem_of_filter.
      apply resolves_snapshot, entryWarnings_dropped in Hdrop as [e He].
      exists e. simpl. apply elem_of_app. right.
      apply list_elem_of_join. eexists. split; [exact He|].
      apply list_elem_of_fmap. eauto.
  - intros e s'. destruct (fs_readdir N d) as [filenames|e']; [|by intros [= -> _]].
    unfold mbind, M_bind. rewrite mapM_readEntry. done.
Qed.
End Files.

(** ** The registry of watchers *)

Section Registry.

Lemma close_watcher_idemp w : close_watcher (close_watcher w) = close_watcher w.
Proof. done. Qed.

Lemma closed_by_length hs st : length (closed_by hs st) = length st.
Proof.
  revert st. induction hs as [|h hs IH]; intros st; simpl; [done|].
  by rewrite IH, length_alter.
Qed.

Lemma closed_by_lookup hs st h :
  closed_by hs st !! h =
  (if decide (h ∈ hs) then close_watcher else id) <$> st !! h.
Proof.
  revert st. induction hs as [|x hs IH]; intros st; simpl.
  - by destruct (st !! h).
  - rewrite IH. destruct (decide (x = h)) as [->|Hne].
    + rewrite list_lookup_alter_eq.
      destruct (decide (h ∈ h :: hs)) as [_|Hn]; [|by destruct Hn; left].
      destruct (st !! h); simpl; [|done]. by case_decide.
    + rewrite list_lookup_alter_ne by done.
      destruct (decide (h ∈ hs)), (decide (h ∈ x :: hs)) as [Hin|Hn]; try done.
      * destruct Hn. by right.
      * apply elem_of_cons in Hin as [->|?]; done.
Qed.

Lemma closed_by_open (hs : list nat) (st : list watcher) (h : nat) (w : watcher) :
  closed_by hs st !! h = Some w → w_closed w = false →
  (h ∉ hs) ∧ st !! h = Some w.
Proof.
  rewrite closed_by_lookup. intros Hw Hc.
  destruct (decide (h ∈ hs)) as [Hin|Hnotin].
  - destruct (st !! h); [|done]. by injection Hw as <-.
  - destruct (st !! h); [|done]. by injection Hw as <-.
Qed.

Lemma closed_by_requester (hs : list nat) (st : list watcher) (h : nat) (w : watcher) :
  closed_by hs st !! h = Some w →
  ∃ w0, st !! h = Some w0 ∧ w_requester w = w_requester w0.
Proof.
  rewrite closed_by_lookup. destruct (st !! h) as [w0|]; [|done].
  intros [= <-]. exists w0. split; [done|]. by case_decide.
Qed.

Lemma closed_by_keeps (hs : list nat) (st : list watcher) (h : nat) (w0 : watcher) :
  st !! h = Some w0 →
  ∃ w, closed_by hs st !! h = Some w ∧ w_requester w = w_requester w0.
Proof.
  intros Hw. rewrite closed_by_lookup, Hw. eexists. split; [done|]. by case_decide.
Qed.

Lemma mapM_watcher_close hs s :
  mapM watcher_close hs s =
  (Returned (replicate (length hs) ()),
   {| fileWatchers := fileWatchers s; store := closed_by hs (store s);
      calls := calls s ++ (CClose <$> hs); logged := logged s; sent := sent s |}).
Proof.
  revert s. induction hs as [|h hs IH]; intros s; simpl.
  - rewrite app_nil_r. by destruct s.
  - unfold mbind, M_bind at 1. unfold watcher_close at 1.
    unfold mbind, M_bind at 1. rewrite IH. simpl.
    by rewrite <- app_assoc.
Qed.

(** No name of [Object.prototype] is the empty string. *)
Lemma inherited_given (id : string) : inherited id = true → id ≠ "".
Proof. by intros Hid ->. Qed.

Lemma given_Some (requesterId : option string) (id : string) :
  given requesterId = Some id → requesterId = Some id ∧ id ≠ "".
Proof.
  unfold given. destruct requesterId as [x|]; [|done].
  destruct (String.eqb_spec x ""); [done|]. by intros [= <-].
Qed.

(** [stopWatching] without an identity, and with the empty string. *)
Lemma stopWatching_all (requesterId : option string) (s : state) :
  given requesterId = None →
  stopWatching requesterId s =
  (Returned (),
   {| fileWatchers := fileWatchers s;
      store := closed_by (snd <$> map_to_list (fileWatchers s)) (store s);
      calls := calls s ++ (CClose <$> (snd <$> map_to_list (fileWatchers s)));
      logged := logged s; sent := sent s |}).
Proof.
  intros Hg. unfold stopWatching. rewrite Hg.
  unfold all_watchers. unfold mbind, M_bind at 1.
  unfold mbind, M_bind at 1. by rewrite mapM_watcher_close.
Qed.

Lemma stopWatching_registered (id : string) (h : nat) (s : state) :
  id ≠ "" → fileWatchers s !! id = Some h →
  stopWatching (Some id) s =
  (Returned (),
   {| fileWatchers := delete id (fileWatchers s);
      store := closed_by [h] (store s);
      calls := calls s ++ [CClose h];
      logged := logged s; sent := sent s |}).
Proof.
  intros Hid Hh. unfold stopWatching, given.
  apply String.eqb_neq in Hid. rewrite Hid.
  unfold lookup_watcher. run. by rewrite Hh.
Qed.

Lemma stopWatching_unregistered (id : string) (s : state) :
  id ≠ "" → fileWatchers s !! id = None →
  ∃ e, stopWatching (Some id) s = (Thrown e, s).
Proof.
  intros Hid Hh. unfold stopWatching, given.
  apply String.eqb_neq in Hid. rewrite Hid.
  unfold lookup_watcher. run. rewrite Hh.
  destruct (inherited id); by eexists.
Qed.

Lemma elem_of_activeSessions (s : state) (id : string) (h : nat) :
  h ∈ activeSessions s id ↔
  ∃ w, store s !! h = Some w ∧ w_requester w = id ∧ w_closed w = false.
Proof.
  unfold activeSessions. rewrite list_elem_of_filter, elem_of_seq. split.
  - intros [Hact _]. destruct (store s !! h) as [w|]; [|done].
    injection Hact as Hact. apply andb_true_iff in Hact as [Hr Hc].
    exists w. split; [done|]. split; [by apply String.eqb_eq|].
    by apply negb_true_iff.
  - intros (w & Hw & Hr & Hc). split.
    + rewrite Hw. simpl. unfold is_active. rewrite Hc.
      apply String.eqb_eq in Hr. by rewrite Hr.
    + apply lookup_lt_Some in Hw. lia.
Qed.

Lemma activeSessions_NoDup (s : state) (id : string) : NoDup (activeSessions s id).
Proof. apply NoDup_filter, NoDup_seq. Qed.

Lemma NoDup_all_equal {A} (l : list A) :
  NoDup l → (∀ x y, x ∈ l → y ∈ l → x = y) → (length l ≤ 1)%nat.
Proof.
  destruct l as [|a [|b l]]; simpl; [lia..|].
  intros Hnd Heq. apply NoDup_cons in Hnd as [Hnotin _].
  destruct Hnotin. rewrite (Heq a b); [by left | by left | by right; left].
Qed.

Lemma NoDup_only {A} (l : list A) (a : A) :
  NoDup l → (∀ x, x ∈ l ↔ x = a) → l = [a].
Proof.
  intros Hnd Hl. assert (a ∈ l) as Ha by by apply Hl.
  destruct l as [|b [|c l]]; [by apply elem_of_nil in Ha| |].
  - f_equal. apply Hl. by left.
  - apply NoDup_cons in Hnd as [Hnotin _]. destruct Hnotin.
    rewrite (proj1 (Hl b)) by by left.
    rewrite <- (proj1 (Hl c)) by (by right; left). by left.
Qed.

Lemma matches_here_search (r : regex) (before rest : list N) :
  matches_here r rest = true → search r (before ++ rest) = true.
Proof.
  intros Hm. induction before as [|u before IH].
  - destruct rest; simpl in *; by rewrite Hm.
  - cbn [app search]. rewrite IH. apply orb_true_r.
Qed.

Lemma search_iff (r : regex) (us : list N) :
  search r us = true ↔
  ∃ before rest, us = before ++ rest ∧ matches_here r rest = true.
Proof.
  split.
  - induction us as [|u us IH]; cbn [search].
    + rewrite orb_false_r. intros Hm. by exists [], [].
    + intros [Hm|Ht]%orb_true_iff.
      * by exists [], (u :: us).
      * destruct (IH Ht) as (before & rest & -> & Hm).
        by exists (u :: before), rest.
  - intros (before & rest & -> & Hm). by apply matches_here_search.
Qed.

Lemma consistent_initial : consistent initial.
Proof. split_and!; [intros id h | intros h w | intros id h]; simpl; done. Qed.

(** At most one active session for every identity. *)
Lemma consistent_at_most_one (s : state) (id : string) :
  consistent s → (length (activeSessions s id) ≤ 1)%nat.
Proof.
  intros (_ & Hreg & _). apply NoDup_all_equal; [apply activeSessions_NoDup|].
  intros x y (wx & Hx & Hrx & Hcx)%elem_of_activeSessions
             (wy & Hy & Hry & Hcy)%elem_of_activeSessions.
  apply Hreg in Hx, Hy; try done. rewrite Hrx in Hx. rewrite Hry in Hy. congruence.
Qed.

Lemma sound_initial : sound initial.
Proof. split_and!; [intros id h | intros id h | intros h w]; simpl; done. Qed.

(** At most one active session for every identity that is not a name of
    [Object.prototype]. *)
Lemma sound_at_most_one (s : state) (id : string) :
  sound s → inherited id = false → (length (activeSessions s id) ≤ 1)%nat.
Proof.
  intros (_ & _ & Hreg) Hid. apply NoDup_all_equal; [apply activeSessions_NoDup|].
  intros x y (wx & Hx & Hrx & Hcx)%elem_of_activeSessions
             (wy & Hy & Hry & Hcy)%elem_of_activeSessions.
  apply Hreg in Hx, Hy; try done; [|by rewrite Hry|by rewrite Hrx].
  rewrite Hrx in Hx. rewrite Hry in Hy. congruence.
Qed.

Lemma stopWatching_consistent (requesterId : option string) (s : state) :
  consistent s → consistent (snd (stopWatching requesterId s)).
Proof.
  intros (Hvalid & Hreg & Hkeys).
  destruct (given requesterId) as [id|] eqn:Hgiven.
  - apply given_Some in Hgiven as [-> Hid].
    destruct (fileWatchers s !! id) as [h|] eqn:Hh.
    + rewrite (stopWatching_registered id h) by done.
      split_and!; cbn [snd fileWatchers store].
      * intros id' h' [_ Hh']%lookup_delete_Some.
        rewrite closed_by_length. eauto.
      * intros h' w Hw Hc. apply closed_by_open in Hw as [Hnotin Hw]; [|done].
        rewrite lookup_delete_ne; [by apply Hreg|].
        intros Heq. destruct Hnotin. apply list_elem_of_singleton.
        apply Hreg in Hw; [|done]. congruence.
      * intros id' h' [_ Hh']%lookup_delete_Some. eauto.
    + destruct (stopWatching_unregistered id s Hid Hh) as [e ->]. by split_and!.
  - rewrite stopWatching_all by done. split_and!; cbn [snd fileWatchers store].
    + intros id h Hh. rewrite closed_by_length. eauto.
    + intros h w Hw Hc. apply closed_by_open in Hw as [Hnotin Hw]; [|done].
      destruct Hnotin. apply list_elem_of_fmap.
      exists (w_requester w, h). split; [done|].
      apply elem_of_map_to_list. by apply Hreg.
    + done.
Qed.

Lemma stopWatching_sound (requesterId : option string) (s : state) :
  sound s → sound (snd (stopWatching requesterId s)).
Proof.
  intros (Hown & Hkeys & Hreg).
  destruct (given requesterId) as [id|] eqn:Hgiven.
  - apply given_Some in Hgiven as [-> Hid].
    destruct (fileWatchers s !! id) as [h|] eqn:Hh.
    + rewrite (stopWatching_registered id h) by done.
      unfold sound, owned; split_and!; cbn [snd fileWatchers store].
      * intros id' h' [_ (w0 & Hw0 & Hr)%Hown]%lookup_delete_Some.
        destruct (closed_by_keeps [h] _ _ _ Hw0) as (w & Hw & Hrw).
        exists w. split; [done | congruence].
      * intros id' h' [_ Hh']%lookup_delete_Some. eauto.
      * intros h' w Hw Hc Hinh. apply closed_by_open in Hw as [Hnotin Hw]; [|done].
        rewrite lookup_delete_ne; [by apply Hreg|].
        intros Heq. destruct Hnotin. apply list_elem_of_singleton.
        apply Hreg in Hw; [|done..]. congruence.
    + destruct (stopWatching_unregistered id s Hid Hh) as [e ->]. by split_and!.
  - rewrite stopWatching_all by done. unfold sound, owned; split_and!; cbn [snd fileWatchers store].
    + intros id' h' (w0 & Hw0 & Hr)%Hown.
      destruct (closed_by_keeps (snd <$> map_to_list (fileWatchers s)) _ _ _ Hw0)
        as (w & Hw & Hrw).
      exists w. split; [done | congruence].
    + done.
    + intros h w Hw Hc Hinh. apply closed_by_open in Hw as [Hnotin Hw]; [|done].
      destruct Hnotin. apply list_elem_of_fmap.
      exists (w_requester w, h). split; [done|].
      apply elem_of_map_to_list. by apply Hreg.
Qed.

Context (N : node).

Lemma addWatching_registered (id : string) (t : target) (h : nat) (s : state) :
  fileWatchers s !! id = Some h →
  addWatching N id t s =
  (Returned (),
   {| fileWatchers := fileWatchers s;
      store := alter (add_target (resolveTarget N t)) h (store s);
      calls := calls s ++ [CAdd h (resolveTarget N t)];
      logged := logged s ++ [{| level := "info";
                  args := [VStr "addWatching"; VStr id;
                           target_value (resolveTarget N t)] |}];
      sent := sent s |}).
Proof.
  intros Hh. unfold addWatching, lookup_watcher. run. by rewrite Hh.
Qed.

Lemma addWatching_unregistered (id : string) (t : target) (s : state) :
  fileWatchers s !! id = None →
  ∃ out,
    addWatching N id t s =
    (out,
     {| fileWatchers := fileWatchers s; store := store s; calls := calls s;
        logged := logged s ++ [{| level := "info";
                    args := [VStr "addWatching"; VStr id;
                             target_value (resolveTarget N t)] |}];
        sent := sent s |}) ∧
    (inherited id = false → out = Returned ()) ∧
    (inherited id = true → ∃ e, out = Thrown e).
Proof.
  intros Hh. unfold addWatching, lookup_watcher. run. rewrite Hh.
  destruct (inherited id); eexists; (split; [done|]); split; try done.
  intros _. by eexists.
Qed.

Lemma addWatching_sound (requesterId : string) (t : target) (s : state) :
  sound s → sound (snd (addWatching N requesterId t s)).
Proof.
  intros (Hown & Hkeys & Hreg).
  destruct (fileWatchers s !! requesterId) as [h|] eqn:Hh.
  - rewrite (addWatching_registered requesterId t h) by done.
    unfold sound, owned; split_and!; cbn [snd fileWatchers store].
    + intros id' h' (w0 & Hw0 & Hr)%Hown.
      destruct (decide (h = h')) as [<-|Hne].
      * rewrite list_lookup_alter_eq, Hw0. by eexists.
      * rewrite list_lookup_alter_ne by done. by eexists.
    + done.
    + intros h' w. destruct (decide (h = h')) as [<-|Hne].
      * rewrite list_lookup_alter_eq.
        destruct (Hown _ _ Hh) as (w0 & Hw0 & Hr). rewrite Hw0.
        intros [= <-] _ _. cbn [add_target w_requester]. by rewrite Hr.
      * rewrite list_lookup_alter_ne by done. apply Hreg.
  - destruct (addWatching_unregistered requesterId t s Hh) as (out & -> & _).
    by split_and!.
Qed.

(** [startWatching] for a registered identity that is not the empty
    string. *)
Lemma startWatching_registered
    (ipcEmitter : nat) (id : string) (t : target) (h : nat) (s : state) :
  id ≠ "" → fileWatchers s !! id = Some h →
  startWatching N ipcEmitter id t s =
  (Returned (),
   {| fileWatchers := <[id := length (store s)]> (fileWatchers s);
      store := closed_by [h] (store s ++ [started N id ipcEmitter t]);
      calls := calls s ++ [CWatch (length (store s)); CClose h];
      logged := logged s ++ [{| level := "info";
                  args := [VStr "startWatching"; VStr id;
                           target_value (resolveTarget N t)] |}];
      sent := sent s |}).
Proof.
  intros Hid Hh.
  unfold startWatching. unfold log, chokidar_watch, lookup_watcher.
  unfold mbind, M_bind at 1 2 3. cbn [append_log fileWatchers store calls logged sent].
  rewrite Hh. unfold mbind, M_bind.
  erewrite stopWatching_registered by (simpl; done).
  unfold with_watchers. cbn [fileWatchers store calls logged sent].
  rewrite <- app_assoc. cbn [app]. by rewrite insert_delete_eq.
Qed.

(** [startWatching] with the empty string, when something is registered
    under it. *)
Lemma startWatching_empty
    (ipcEmitter : nat) (t : target) (h : nat) (s : state) :
  fileWatchers s !! "" = Some h →
  startWatching N ipcEmitter "" t s =
  (Returned (),
   {| fileWatchers := <["" := length (store s)]> (fileWatchers s);
      store := closed_by (snd <$> map_to_list (fileWatchers s))
                 (store s ++ [started N "" ipcEmitter t]);
      calls := calls s ++ CWatch (length (store s))
                 :: (CClose <$> (snd <$> map_to_list (fileWatchers s)));
      logged := logged s ++ [{| level := "info";
                  args := [VStr "startWatching"; VStr "";
                           target_value (resolveTarget N t)] |}];
      sent := sent s |}).
Proof.
  intros Hh.
  unfold startWatching. unfold log, chokidar_watch, lookup_watcher.
  unfold mbind, M_bind at 1 2 3. cbn [append_log fileWatchers store calls logged sent].
  rewrite Hh. unfold mbind, M_bind. rewrite stopWatching_all by done.
  unfold with_watchers. cbn [fileWatchers store calls logged sent].
  by rewrite <- app_assoc.
Qed.

(** [startWatching] for an identity that is not registered and is not a
    name of [Object.prototype]. *)
Lemma startWatching_unregistered
    (ipcEmitter : nat) (id : string) (t : target) (s : state) :
  fileWatchers s !! id = None → inherited id = false →
  startWatching N ipcEmitter id t s =
  (Returned (),
   {| fileWatchers := <[id := length (store s)]> (fileWatchers s);
      store := store s ++ [started N id ipcEmitter t];
      calls := calls s ++ [CWatch (length (store s))];
      logged := logged s ++ [{| level := "info";
                  args := [VStr "startWatching"; VStr id;
                           target_value (resolveTarget N t)] |}];
      sent := sent s |}).
Proof.
  intros Hnone Hinh.
  unfold startWatching. unfold log, chokidar_watch, lookup_watcher.
  unfold mbind, M_bind. cbn [append_log fileWatchers store calls logged sent].
  by rewrite Hnone, Hinh.
Qed.

(** [startWatching] for a name of [Object.prototype] that is not
    registered: the watcher is created, and the guard before the
    registration takes what the prototype gives for a watcher to stop. *)
Lemma startWatching_inherited
    (ipcEmitter : nat) (id : string) (t : target) (s : state) :
  fileWatchers s !! id = None → inherited id = true →
  startWatching N ipcEmitter id t s =
  (Thrown (TypeError "fileWatchers[requesterId].close is not a function"),
   {| fileWatchers := fileWatchers s;
      store := store s ++ [started N id ipcEmitter t];
      calls := calls s ++ [CWatch (length (store s))];
      logged := logged s ++ [{| level := "info";
                  args := [VStr "startWatching"; VStr id;
                           target_value (resolveTarget N t)] |}];
      sent := sent s |}).
Proof.
  intros Hnone Hinh. pose proof (inherited_given id Hinh) as Hid.
  apply String.eqb_neq in Hid.
  unfold startWatching. unfold log, chokidar_watch, lookup_watcher.
  unfold mbind, M_bind at 1 2 3. cbn [append_log fileWatchers store calls logged sent].
  rewrite Hnone, Hinh. unfold mbind, M_bind.
  unfold stopWatching, given. rewrite Hid. unfold lookup_watcher.
  unfold mbind, M_bind. cbn [fileWatchers]. by rewrite Hnone, Hinh.
Qed.

(** What every call of [startWatching] does to the state. *)
Lemma startWatching_run (ipcEmitter : nat) (id : string) (t : target) (s : state) :
  ∃ out hs fw,
    startWatching N ipcEmitter id t s =
    (out,
     {| fileWatchers := fw;
        store := closed_by hs (store s ++ [started N id ipcEmitter t]);
        calls := calls s ++ CWatch (length (store s)) :: (CClose <$> hs);
        logged := logged s ++ [{| level := "info";
                    args := [VStr "startWatching"; VStr id;
                             target_value (resolveTarget N t)] |}];
        sent := sent s |}) ∧
    (∀ h, h ∈ hs → ∃ id', fileWatchers s !! id' = Some h) ∧
    (id ≠ "" → ∀ h, h ∈ hs → fileWatchers s !! id = Some h) ∧
    (∀ h, fileWatchers s !! id = Some h → h ∈ hs) ∧
    (∀ id', id' ≠ id → fw !! id' = fileWatchers s !! id') ∧
    (is_Some (fileWatchers s !! id) ∨ inherited id = false →
       out = Returned () ∧ fw = <[id := length (store s)]> (fileWatchers s)) ∧
    (fileWatchers s !! id = None → inherited id = true →
       (∃ e, out = Thrown e) ∧ fw = fileWatchers s).
Proof.
  destruct (fileWatchers s !! id) as [h|] eqn:Hh.
  - destruct (decide (id = "")) as [->|Hid].
    + rewrite (startWatching_empty _ _ h) by done.
      eexists _, _, _. split; [reflexivity|]. split_and!; try done.
      * intros h' [[id' x] [-> Hin]]%list_elem_of_fmap.
        apply elem_of_map_to_list in Hin. eauto.
      * intros h' [= <-]. apply list_elem_of_fmap. exists ("", h). split; [done|].
        by apply elem_of_map_to_list.
      * intros id' Hne. by rewrite lookup_insert_ne.
    + rewrite (startWatching_registered _ _ _ h) by done.
      eexists _, [h], _. split; [reflexivity|]. split_and!; try done.
      * intros h' ->%list_elem_of_singleton. eauto.
      * by intros _ h' ->%list_elem_of_singleton.
      * intros h' [= <-]. by left.
      * intros id' Hne. by rewrite lookup_insert_ne.
  - destruct (inherited id) eqn:Hinh.
    + rewrite startWatching_inherited by done.
      eexists _, [], _. split; [reflexivity|]. split_and!; try done.
      * by intros h' ?%elem_of_nil.
      * by intros _ h' ?%elem_of_nil.
      * by intros [[? ?]|?].
      * intros _ _. split; [by eexists | done].
    + rewrite startWatching_unregistered by done.
      eexists _, [], _. split; [reflexivity|]. split_and!; try done.
      * by intros h' ?%elem_of_nil.
      * by intros _ h' ?%elem_of_nil.
      * intros id' Hne. by rewrite lookup_insert_ne.
Qed.

Lemma startWatching_sound
    (ipcEmitter : nat) (requesterId : string) (t : target) (s : state) :
  sound s → sound (snd (startWatching N ipcEmitter requesterId t s)).
Proof.
  intros (Hown & Hkeys & Hreg).
  destruct (startWatching_run ipcEmitter requesterId t s)
    as (out & hs & fw & -> & Hhs & _ & Hold & Hfw & Hdone & Hleak).
  assert (∀ h, h ∈ hs → h < length (store s)) as Hlt.
  { intros h [id' (w & Hw & _)%Hown]%Hhs. by eapply lookup_lt_Some. }
  assert (∀ h, fw !! requesterId = Some h →
            h = length (store s) ∧ inherited requesterId = false) as Hnew.
  { intros h Hh. destruct (fileWatchers s !! requesterId) as [h0|] eqn:Hh0.
    - destruct Hdone as [_ ->]; [by left; eexists|].
      rewrite lookup_insert_eq in Hh. injection Hh as <-. eauto.
    - destruct (inherited requesterId) eqn:Hinh.
      + destruct (Hleak eq_refl eq_refl) as [_ ->]. congruence.
      + destruct Hdone as [_ ->]; [by right|].
        rewrite lookup_insert_eq in Hh. by injection Hh as <-. }
  unfold sound, owned; split_and!; cbn [snd fileWatchers store].
  - intros id' h'. destruct (decide (id' = requesterId)) as [->|Hne].
    + intros [-> _]%Hnew.
      destruct (closed_by_keeps hs (store s ++ [started N requesterId ipcEmitter t])
                  (length (store s)) _ (list_lookup_middle _ _ _ _ eq_refl))
        as (w & Hw & Hr).
      by exists w.
    + rewrite Hfw by done. intros (w0 & Hw0 & Hr)%Hown.
      destruct (closed_by_keeps hs (store s ++ [started N requesterId ipcEmitter t])
                  h' w0) as (w & Hw & Hrw).
      { rewrite lookup_app_l; [done|]. by eapply lookup_lt_Some. }
      exists w. split; [done | congruence].
  - intros id' h'. destruct (decide (id' = requesterId)) as [->|Hne].
    + by intros [_ ?]%Hnew.
    + rewrite Hfw by done. apply Hkeys.
  - intros h w Hw Hc Hinh. apply closed_by_open in Hw as [Hnotin Hw]; [|done].
    apply lookup_snoc_Some in Hw as [[Hl Hw]|[-> <-]].
    + destruct (decide (w_requester w = requesterId)) as [Hr|Hr].
      * destruct Hnotin. apply Hold. rewrite <- Hr. by apply Hreg.
      * rewrite Hfw by done. by apply Hreg.
    + cbn [started w_requester] in *.
      destruct Hdone as [_ ->]; [by right|]. apply lookup_insert_eq.
Qed.

Lemma reachable_sound (s : state) : reachable N s → sound s.
Proof.
  induction 1; eauto using sound_initial, startWatching_sound,
    addWatching_sound, stopWatching_sound.
Qed.

(** What [startWatching] does for a registered identity in a state that is
    sound. *)
Lemma startWatching_effect
    (ipcEmitter : nat) (id : string) (t : target) (s : state) (old : nat) :
  sound s → fileWatchers s !! id = Some old →
  ∃ s' hs,
    startWatching N ipcEmitter id t s = (Returned (), s') ∧
    calls s' = calls s ++ CWatch (length (store s)) :: (CClose <$> hs) ∧
    old ∈ hs ∧
    (∀ h, h ∈ hs → h < length (store s) ∧
                   store s' !! h = close_watcher <$> store s !! h) ∧
    fileWatchers s' !! id = Some (length (store s)) ∧
    store s' !! length (store s) = Some (started N id ipcEmitter t) ∧
    activeSessions s' id = [length (store s)].
Proof.
  intros (Hown & Hkeys & Hreg) Hh.
  destruct (startWatching_run ipcEmitter id t s)
    as (out & hs & fw & Hrun & Hhs & _ & Hold & Hfw & Hdone & _).
  destruct Hdone as [-> ->]; [by left; eexists|].
  assert (∀ h, h ∈ hs → h < length (store s)) as Hlt.
  { intros h [id' (w & Hw & _)%Hown]%Hhs. by eapply lookup_lt_Some. }
  assert (length (store s) ∉ hs) as Hnew.
  { intros Hin%Hlt. lia. }
  eexists _, hs. split; [exact Hrun|]. cbn [fileWatchers store calls].
  split_and!.
  - done.
  - by apply Hold.
  - intros h Hin. split; [by apply Hlt|].
    rewrite closed_by_lookup, decide_True by done.
    by rewrite lookup_app_l by by apply Hlt.
  - apply lookup_insert_eq.
  - rewrite closed_by_lookup, decide_False by done.
    by rewrite list_lookup_middle.
  - apply NoDup_only; [apply activeSessions_NoDup|].
    intros h. rewrite elem_of_activeSessions. cbn [store]. split.
    + intros (w & Hw & Hr & Hc).
      apply closed_by_open in Hw as [Hnotin Hw]; [|done].
      apply lookup_snoc_Some in Hw as [[Hl Hw]|[-> _]]; [|done].
      destruct Hnotin. apply Hold. rewrite <- Hr. apply Hreg; [done..|].
      rewrite Hr. eauto.
    + intros ->. exists (started N id ipcEmitter t). split_and!; [|done..].
      rewrite closed_by_lookup, decide_False by done.
      by rewrite list_lookup_middle.
Qed.

(** C1, as amended.  In a state that the calls of the module reach,
    [startWatching] for an identity that is registered returns; it creates
    the new watcher first and closes the registered one after it, which
    leaves that one closed and without listeners; the new watcher is open
    and is the one registered; it is the only active session of the
    identity, and no identity that is not a name of [Object.prototype] has
    more than one active session. *)
Theorem startWatching_replaces
    (ipcEmitter : nat) (requesterId : string) (t : target) (s : state) (old : nat) :
  reachable N s → fileWatchers s !! requesterId = Some old →
  let new := length (store s) in
  ∃ s' closed,
    startWatching N ipcEmitter requesterId t s = (Returned (), s') ∧
    calls s' = calls s ++ CWatch new :: (CClose <$> closed) ∧
    old ∈ closed ∧
    (∃ w, store s' !! old = Some w ∧ w_closed w = true ∧ w_listeners w = []) ∧
    fileWatchers s' !! requesterId = Some new ∧
    store s' !! new = Some (started N requesterId ipcEmitter t) ∧
    activeSessions s' requesterId = [new] ∧
    (∀ id', inherited id' = false → length (activeSessions s' id') ≤ 1).
Proof.
  intros Hs Hold new.
  pose proof (reachable_sound s Hs) as Hsound.
  destruct (startWatching_effect ipcEmitter requesterId t s old Hsound Hold)
    as (s' & hs & Hrun & Hcalls & Hin & Hclosed & Hfw & Hnew & Hactive).
  exists s', hs. split_and!; try done.
  - destruct (Hclosed old Hin) as [Hlt Hw].
    apply lookup_lt_is_Some in Hlt as [w Hw']. rewrite Hw' in Hw.
    by exists (close_watcher w).
  - intros id' Hid'. apply sound_at_most_one; [|done].
    pose proof (startWatching_sound ipcEmitter requesterId t s Hsound) as Hs'.
    by rewrite Hrun in Hs'.
Qed.

(** C8, as amended.  The watcher that [startWatching] creates has the fixed
    options: depth 1, symbolic links not followed, [awaitWriteFinish] and
    [ignoreInitial] set, and among the ignored patterns one that matches
    every path in which a slash is followed by a dot and one that matches
    every path that contains [rodeo.log].  This is so whether the call
    returns or throws. *)
Theorem startWatching_policy
    (ipcEmitter : nat) (requesterId : string) (t : target) (s : state) :
  let s' := snd (startWatching N ipcEmitter requesterId t s) in
  ∃ w,
    store s' !! length (store s) = Some w ∧
    w_requester w = requesterId ∧
    depth (w_options w) = 1 ∧
    followSymlinks (w_options w) = false ∧
    awaitWriteFinish (w_options w) = true ∧
    ignoreInitial (w_options w) = true ∧
    (∀ p before after, units p = before ++ units "/." ++ after →
       ∃ r, r ∈ ignored (w_options w) ∧ test r p = true) ∧
    (∀ p before after, units p = before ++ units "rodeo.log" ++ after →
       ∃ r, r ∈ ignored (w_options w) ∧ test r p = true).
Proof.
  destruct (startWatching_run ipcEmitter requesterId t s)
    as (out & hs & fw & -> & _).
  cbn [snd store].
  eexists ((if decide (length (store s) ∈ hs) then close_watcher else id)
             (started N requesterId ipcEmitter t)).
  split.
  { by rewrite closed_by_lookup, list_lookup_middle. }
  assert (w_options ((if decide (length (store s) ∈ hs) then close_watcher else id)
                (started N requesterId ipcEmitter t)) = watchOptions) as ->.
  { by case_decide. }
  split_and!; try done.
  - by case_decide.
  - intros p before after Hp. eexists. split; [by left|].
    unfold test. rewrite Hp. by apply matches_here_search.
  - intros p before after Hp. eexists. split; [by right; left|].
    unfold test. rewrite Hp. by apply matches_here_search.
Qed.

(** C5.  [stopWatching] without an identity returns after calling
    [close()] on every registered watcher, and leaves [fileWatchers] as it
    was: the registrations are closed, not removed. *)
Theorem stopWatching_all_keeps_registry (s : state) :
  ∃ s', stopWatching None s = (Returned (), s') ∧
        fileWatchers s' = fileWatchers s ∧
        store s' = closed_by (snd <$> map_to_list (fileWatchers s)) (store s).
Proof. rewrite stopWatching_all by done. by eexists. Qed.

(** C10, as amended.  When nothing is registered under an identity:
    [stopWatching] with that identity throws and leaves the state as it
    was, unless the identity is the empty string, which [if (requesterId)]
    takes for no identity, so that the call is the one that closes every
    registered watcher and returns; [addWatching] with an identity that is
    not a name of [Object.prototype] returns without touching the registry,
    the watchers or chokidar. *)
Theorem stopWatching_throws_addWatching_ignores
    (requesterId : string) (t : target) (s : state) :
  fileWatchers s !! requesterId = None →
  (requesterId ≠ "" → ∃ e, stopWatching (Some requesterId) s = (Thrown e, s)) ∧
  (requesterId = "" →
     stopWatching (Some requesterId) s = stopWatching None s ∧
     ∃ s', stopWatching (Some requesterId) s = (Returned (), s') ∧
           store s' = closed_by (snd <$> map_to_list (fileWatchers s)) (store s)) ∧
  (inherited requesterId = false →
     ∃ s', addWatching N requesterId t s = (Returned (), s') ∧
           fileWatchers s' = fileWatchers s ∧ store s' = store s ∧
           calls s' = calls s ∧ sent s' = sent s).
Proof.
  intros Hnone. split_and!.
  - intros Hid. by apply stopWatching_unregistered.
  - intros ->. rewrite !stopWatching_all by done. split; [done|]. by eexists.
  - intros Hinh.
    destruct (addWatching_unregistered requesterId t s Hnone) as (out & -> & Hout & _).
    rewrite Hout by done. by eexists.
Qed.

End Registry.


(** ** The translator of change events *)

Section Translator.

Context (N : node).

Lemma normalizeObject_isDirectory (d : obj) :
  get (normalizeObject d) "isDirectory" = result d "isDirectory" (VBool false).
Proof. unfold normalizeObject, get. by simplify_map_eq. Qed.


(** Once [normalizeStats] has run, every object passes the test on
    [isDirectory], but the one whose [isDirectory] is a method that
    returns [undefined]. *)
Lemma getFileSystemChangeToken_object
    (eventType filePath : string) (d : obj) (s : state) :
  getFileSystemChangeToken N eventType filePath (Some d) s =
  if defined (result d "isDirectory" (VBool false)) then
    (Returned (<["details" := VObj (eventDetails N filePath d)]>
                 (bareEvent eventType filePath)), s)
  else
    (Returned (bareEvent eventType filePath),
     append_log s [{| level := "info";
                      args := [VStr "HEEEEEY"; VStr eventType; VStr filePath;
                               VObj (normalizeObject d)] |}]).
Proof.
  unfold getFileSystemChangeToken. cbn [normalizeStats].
  rewrite normalizeObject_isDirectory.
  by destruct (defined _).
Qed.

Lemma getFileSystemChangeToken_undefined
    (eventType filePath : string) (s : state) :
  getFileSystemChangeToken N eventType filePath None s =
  (Returned (bareEvent eventType filePath),
   append_log s [{| level := "info";
                    args := [VStr "HEEEEEY"; VStr eventType; VStr filePath;
                             VUndefined] |}]).
Proof. done. Qed.


(** C6, as amended.  Every event of the translator has [type]
    ["FILE_SYSTEM_CHANGED"], the event kind it was given in the field
    [eventType], the path in [path], no field [eventKind], and no other
    field but, possibly, [details], which is then an object. *)
Theorem getFileSystemChangeToken_shape
    (eventType filePath : string) (details : option obj) (s : state) :
  ∃ event s',
    getFileSystemChangeToken N eventType filePath details s = (Returned event, s') ∧
    event !! "type" = Some (VStr "FILE_SYSTEM_CHANGED") ∧
    event !! "eventType" = Some (VStr eventType) ∧
    event !! "path" = Some (VStr filePath) ∧
    event !! "eventKind" = None ∧
    (dom event = {[ "type"; "eventType"; "path" ]} ∨
     dom event = {[ "type"; "eventType"; "path"; "details" ]} ∧
     ∃ d, event !! "details" = Some (VObj d)).
Proof.
  destruct details as [d|].
  - rewrite getFileSystemChangeToken_object.
    destruct (defined _); eexists _, _; (split; [done|]); unfold bareEvent.
    + split_and!; try by simplify_map_eq.
      right. split; [|eexists; by simplify_map_eq].
      rewrite !dom_insert_L, dom_singleton_L. set_solver.
    + split_and!; try by simplify_map_eq.
      left. rewrite !dom_insert_L, dom_singleton_L. set_solver.
  - rewrite getFileSystemChangeToken_undefined.
    eexists _, _. split; [done|]. unfold bareEvent.
    split_and!; try by simplify_map_eq.
    left. rewrite !dom_insert_L, dom_singleton_L. set_solver.
Qed.

(** What goes to [ipcEmitter.send] is the event of the translator. *)
Lemma on_all_dispatches
    (ipcEmitter : nat) (eventType filePath : string) (details : option obj)
    (s : state) :
  ∃ event s',
    fst (getFileSystemChangeToken N eventType filePath details s) = Returned event ∧
    on_all N ipcEmitter eventType filePath details s = (Returned (), s') ∧
    sent s' = sent s ++ [(ipcEmitter, [VStr "dispatch"; VStr "files"; VObj event])] ∧
    fileWatchers s' = fileWatchers s ∧ store s' = store s.
Proof.
  unfold on_all, mbind, M_bind.
  destruct details as [d|].
  - rewrite getFileSystemChangeToken_object.
    destruct (defined _); by eexists _, _.
  - rewrite getFileSystemChangeToken_undefined. by eexists _, _.
Qed.

End Translator.

(** ** The functions at work in the sample world *)

Section Examples.
Import Sample.

(** The sample state is one that the calls of the module reach. *)
Lemma watching_reachable : reachable world watching.
Proof. apply reachable_start, reachable_initial. Defined.

Lemma watching_consistent : consistent watching.
Proof.
  unfold watching. rewrite startWatching_unregistered by done.
  split_and!; cbn [snd fileWatchers store initial app length].
  - intros id h [[_ <-]|[_ ?]]%lookup_insert_Some; [lia | done].
  - intros h w [[-> <-]|[? ?]]%lookup_cons_Some _; [done|].
    by destruct (h - 1).
  - intros id h [[<- _]|[_ ?]]%lookup_insert_Some; done.
Defined.

(** C1 at work: the file viewer starts again, on another directory. *)
Lemma startWatching_replaces_witness :
  ∃ s', startWatching world 0 "file-viewer" (One "~/other/*") watching
          = (Returned (), s') ∧
        activeSessions s' "file-viewer" = [1] ∧
        fileWatchers s' !! "file-viewer" = Some 1.
Proof.
  destruct (startWatching_replaces world 0 "file-viewer" (One "~/other/*")
              watching 0 watching_reachable eq_refl)
    as (s' & closed & Hrun & _ & _ & _ & Hfw & _ & Hactive & _).
  exists s'. split; [exact Hrun|]. split; [exact Hactive | exact Hfw].
Defined.

(** C1 as stated fails: with the file viewer registered under handle 0,
    a second [startWatching] calls [chokidar.watch] for handle 1 before it
    closes handle 0. *)
Lemma startWatching_creates_before_closing :
  fileWatchers watching !! "file-viewer" = Some 0 ∧
  calls (snd (startWatching world 0 "file-viewer" (One "~/other/*") watching))
    = [CWatch 0; CWatch 1; CClose 0].
Proof. split; vm_compute; reflexivity. Qed.


(** C3 at work: four entries, one of which is gone by the time of its stat. *)
Lemma readDirectory_listing_witness :
  ∃ listing s',
    readDirectory world "~/docs" initial = (Returned listing, s') ∧
    length listing = 3.
Proof.
  destruct (readDirectory_listing world "~/docs" initial) as (_ & Hok & _).
  destruct (Hok ["a.txt"; "gone"; "sub"; "link"] eq_refl)
    as (s' & Hrun & Hlen & _).
  eexists _, s'. split; [exact Hrun|]. rewrite Hlen. vm_compute. reflexivity.
Defined.

(** C4 at work: [lstat] fails on [link] and [stat] resolves it. *)
Lemma getStats_policy_witness :
  ∃ o,
    getStats world "~/docs/link" initial
      = (Returned (Some (normalizeObject o)),
         append_log initial
           [warning [VStr "lstat failed"; VStr "/home/u/docs/link"; ENOENT]]).
Proof.
  destruct (getStats_policy world "~/docs/link" initial) as (_ & Hfallback & _).
  exists (stats false true false 7).
  exact (Hfallback ENOENT (stats false true false 7) eq_refl eq_refl).
Defined.

(** C5 at the failing input: the file viewer is registered, [stopWatching]
    without an identity returns, and the file viewer is still registered. *)
Lemma file_viewer_still_registered :
  fileWatchers watching !! "file-viewer" = Some 0 ∧
  fst (stopWatching None watching) = Returned () ∧
  fileWatchers (snd (stopWatching None watching)) !! "file-viewer" = Some 0.
Proof. split_and!; vm_compute; reflexivity. Qed.

(** C6 as stated fails: the event of an [add] has no field [eventKind];
    the kind is in [eventType]. *)
Lemma getFileSystemChangeToken_no_eventKind :
  ∃ event s',
    getFileSystemChangeToken world "add" "/tmp/a.txt" None initial
      = (Returned event, s') ∧
    event !! "eventKind" = None ∧
    event !! "eventType" = Some (VStr "add").
Proof. eexists _, _. split; [reflexivity|]. split; vm_compute; reflexivity. Qed.

(** C7 at work. *)
Lemma resolve_then_shorten_witness :
  getWithHomeDirectoryShortName world (resolveHomeDirectory world "~/docs")
    = "~/docs".
Proof.
  destruct (resolve_then_shorten world "/docs" eq_refl eq_refl) as (_ & Hnormal & _).
  apply Hnormal. right. exists "docs". split; reflexivity.
Defined.

(** C7 as stated fails: [~//docs] starts with the placeholder and comes
    back as [~/docs]. *)
Lemma double_slash_not_restored :
  startsWith "~//docs" "~" = true ∧
  getWithHomeDirectoryShortName world (resolveHomeDirectory world "~//docs")
    ≠ "~//docs".
Proof. split; [reflexivity|]. vm_compute. discriminate. Qed.

(** C8 at work: the watcher of the file viewer, and a path below a
    directory of the home directory whose name starts with a dot. *)
Lemma startWatching_policy_witness :
  ∃ w r,
    store (snd (startWatching world 0 "file-viewer" (One "~/docs/*") initial)) !! 0
      = Some w ∧
    depth (w_options w) = 1 ∧
    r ∈ ignored (w_options w) ∧ test r "/home/u/docs/.git" = true.
Proof.
  destruct (startWatching_policy world 0 "file-viewer" (One "~/docs/*") initial)
    as (w & Hw & _ & Hdepth & _ & _ & _ & Hdot & _).
  destruct (Hdot "/home/u/docs/.git" (units "/home/u/docs") (units "git") eq_refl)
    as (r & Hr & Htest).
  exists w, r. split; [exact Hw|]. split; [exact Hdepth|]. split; [exact Hr | exact Htest].
Defined.

(** C8 as stated fails: a watch on the relative path [.hidden], whose name
    starts with a dot; none of the patterns that chokidar is given matches
    that path, which no separator precedes. *)
Lemma hidden_at_relative_root_not_ignored :
  ∃ w,
    store (snd (startWatching world 0 "file-viewer" (One ".hidden") initial)) !! 0
      = Some w ∧
    w_targets w = [One ".hidden"] ∧
    existsb (λ r, test r ".hidden") (ignored (w_options w)) = false.
Proof. eexists. split; [reflexivity|]. split; vm_compute; reflexivity. Qed.

(** C9 at work: a file that holds an opening brace. *)
Lemma getJSONFileSafeSync_lenient_witness :
  getJSONFileSafeSync world "/home/u/bad.json" initial
    = (Returned VNull,
       append_log initial
         [warning [VStr "/home/u/bad.json"; VStr "is not valid JSON"; SyntaxError]]).
Proof.
  destruct (getJSONFileSafeSync_lenient world "/home/u/bad.json" initial)
    as (_ & Hinvalid & _).
  exact (Hinvalid "{" SyntaxError eq_refl eq_refl).
Defined.

(** C9 as stated fails: the file cannot be read, the result is [null], and
    the log is as empty as before. *)
Lemma getJSONFileSafeSync_unreadable_silent :
  fs_readFileSync world "/home/u/missing.json" = Thrown ENOENT ∧
  getJSONFileSafeSync world "/home/u/missing.json" initial = (Returned VNull, initial) ∧
  logged initial = [].
Proof. split_and!; reflexivity. Qed.

(** C10 at work: nobody is registered under [nobody]. *)
Lemma stopWatching_throws_addWatching_ignores_witness :
  (∃ e, stopWatching (Some "nobody") watching = (Thrown e, watching)) ∧
  (∃ s', addWatching world "nobody" (One "~/x") watching = (Returned (), s') ∧
         fileWatchers s' = fileWatchers watching ∧ store s' = store watching ∧
         calls s' = calls watching ∧ sent s' = sent watching).
Proof.
  destruct (stopWatching_throws_addWatching_ignores world "nobody" (One "~/x")
              watching eq_refl) as (Hstop & _ & Hadd).
  split; [apply Hstop; discriminate | apply Hadd; reflexivity].
Defined.

(** C10 as stated fails: nothing is registered under the empty string, and
    [stopWatching] with the empty string does not throw; it returns, with
    the watcher of the file viewer closed. *)
Lemma stopWatching_empty_string_returns :
  fileWatchers watching !! "" = None ∧
  fst (stopWatching (Some "") watching) = Returned () ∧
  w_closed <$> store watching !! 0 = Some false ∧
  w_closed <$> store (snd (stopWatching (Some "") watching)) !! 0 = Some true.
Proof. split_and!; vm_compute; reflexivity. Qed.

(** Nothing is registered under [constructor] either, and [addWatching]
    with it is no silent return: what [Object.prototype] gives for that
    name passes the guard and has no [add]. *)
Lemma addWatching_inherited_throws :
  fileWatchers watching !! "constructor" = None ∧
  fst (addWatching world "constructor" (One "~/x") watching)
    = Thrown (TypeError "fileWatchers[requesterId].add is not a function").
Proof. split; vm_compute; reflexivity. Qed.
End Examples.

(** * More of the module *)

(** ** The home directory, both ways *)

Section MoreHome.

Lemma startsWith_split (p tok : string) :
  startsWith p tok = true → p = tok +:+ substr p (String.length tok).
Proof.
  revert p. induction tok as [|c tok IH]; intros p; [done|].
  destruct p as [|d p]; [done|]. cbn [startsWith String.length substr].
  intros [Hc Hp]%andb_true_iff. apply Ascii.eqb_eq in Hc as ->.
  change (String d tok +:+ substr p (String.length tok))
    with (String d (tok +:+ substr p (String.length tok))).
  f_equal. by apply IH.
Qed.

Lemma append_empty_r (s : string) : s +:+ "" = s.
Proof.
  induction s as [|c s IH]; [done|].
  change (String c s +:+ "") with (String c (s +:+ "")). by rewrite IH.
Qed.

Context (N : node).

Lemma resolveHomeDirectory_percent (rest : string) :
  plain (os_homedir N) = true →
  resolveHomeDirectory N ("%HOME%" +:+ rest) = os_homedir N +:+ rest.
Proof.
  intros Hplain. unfold resolveHomeDirectory.
  change (startsWith ("%HOME%" +:+ rest) "~") with false.
  change (startsWith ("%HOME%" +:+ rest) "%HOME%") with true. cbn [orb].
  unfold replace_at_start at 2.
  change (startsWith ("%HOME%" +:+ rest) "~") with false. cbn iota.
  unfold replace_at_start.
  change (startsWith ("%HOME%" +:+ rest) "%HOME%") with true.
  change (substr ("%HOME%" +:+ rest) (String.length "%HOME%")) with rest.
  cbn iota. by rewrite substitution_plain.
Qed.

Hypothesis Habs : startsWith (os_homedir N) "/" = true.
Hypothesis Hplain : plain (os_homedir N) = true.

Lemma resolveHomeDirectory_cases (p : string) :
  (∃ rest, resolveHomeDirectory N p = os_homedir N +:+ rest) ∨
  (resolveHomeDirectory N p = p ∧
   startsWith p "~" = false ∧ startsWith p "%HOME%" = false).
Proof.
  destruct (startsWith p "~") eqn:Ht.
  { left. apply startsWith_split in Ht. rewrite Ht.
    eexists. by apply resolveHomeDirectory_tilde. }
  destruct (startsWith p "%HOME%") eqn:Hp.
  { left. apply startsWith_split in Hp. rewrite Hp.
    eexists. by apply resolveHomeDirectory_percent. }
  right. split; [by apply resolveHomeDirectory_other|done].
Qed.

Lemma resolved_without_placeholder (p : string) :
  startsWith (resolveHomeDirectory N p) "~" = false ∧
  startsWith (resolveHomeDirectory N p) "%HOME%" = false.
Proof.
  destruct (resolveHomeDirectory_cases p) as [[rest ->]|(-> & Ht & Hp)]; [|done].
  split; by apply startsWith_absolute.
Qed.

(** X1.  With an absolute home directory that has no dollar sign, a resolved
    path starts with neither [~] nor [%HOME%], whatever the path was. *)
Theorem resolveHomeDirectory_no_placeholder (p : string) :
  startsWith (resolveHomeDirectory N p) "~" = false ∧
  startsWith (resolveHomeDirectory N p) "%HOME%" = false.
Proof. apply resolved_without_placeholder. Qed.

(** X2.  With such a home directory, resolving a resolved path changes
    nothing. *)
Theorem resolveHomeDirectory_idempotent (p : string) :
  resolveHomeDirectory N (resolveHomeDirectory N p) = resolveHomeDirectory N p.
Proof.
  destruct (resolveHomeDirectory_cases p) as [[rest Hr]|(Hr & Ht & Hp)];
    rewrite Hr; apply resolveHomeDirectory_other; try done;
    by apply startsWith_absolute.
Qed.

(** X3.  The two placeholders resolve alike: [%HOME%rest] and [~rest] both
    become the home directory followed by [rest]. *)
Theorem resolveHomeDirectory_tokens_agree (rest : string) :
  resolveHomeDirectory N ("%HOME%" +:+ rest) = os_homedir N +:+ rest ∧
  resolveHomeDirectory N ("~" +:+ rest) = os_homedir N +:+ rest.
Proof.
  split; [by apply resolveHomeDirectory_percent | by apply resolveHomeDirectory_tilde].
Qed.

(** X4.  Shortening and then resolving gives back a path inside the home
    directory, when what follows the home directory is in normal form, and
    gives back the home directory itself. *)
Theorem shorten_then_resolve (r : string) :
  normal_form r = true →
  resolveHomeDirectory N
    (getWithHomeDirectoryShortName N (os_homedir N +:+ "/" +:+ r))
    = os_homedir N +:+ "/" +:+ r ∧
  resolveHomeDirectory N (getWithHomeDirectoryShortName N (os_homedir N))
    = os_homedir N.
Proof.
  intros Hr. split.
  - rewrite getWithHomeDirectoryShortName_home, join_home_normal by done.
    by apply resolveHomeDirectory_tilde.
  - rewrite <- (append_empty_r (os_homedir N)) at 1.
    rewrite getWithHomeDirectoryShortName_home.
    change (Path.join ["~"; ""]) with ("~" +:+ "").
    rewrite resolveHomeDirectory_tilde by done. apply append_empty_r.
Qed.

End MoreHome.

Section MoreFiles.

Context (N : node).

Lemma normalizeObject_other (o : obj) (k : string) :
  k ∉ indicators → normalizeObject o !! k = o !! k.
Proof.
  intros Hk. unfold normalizeObject.
  rewrite !lookup_insert_ne; [done|..]; intros <-; apply Hk; unfold indicators;
    set_solver.
Qed.

Lemma result_insert_ne (o : obj) (k k' : string) (v dflt : value) :
  k ≠ k' → result (<[k' := v]> o) k dflt = result o k dflt.
Proof. intros Hne. unfold result, get. by rewrite lookup_insert_ne. Qed.

Lemma normalizeObject_indicator (o : obj) (k : string) :
  k ∈ indicators → normalizeObject o !! k = Some (result o k (VBool false)).
Proof.
  unfold indicators. intros Hk.
  apply elem_of_cons in Hk as [->|Hk]; [|apply elem_of_cons in Hk as [->|Hk];
    [|apply list_elem_of_singleton in Hk as ->]]; unfold normalizeObject.
  - rewrite !lookup_insert_ne by done. apply lookup_insert_eq.
  - rewrite lookup_insert_ne by done. rewrite lookup_insert_eq.
    by rewrite result_insert_ne.
  - rewrite lookup_insert_eq. by rewrite !result_insert_ne.
Qed.

Lemma result_method (o : obj) (k : string) (b : bool) :
  o !! k = Some (VFun (VBool b)) → result o k (VBool false) = VBool b.
Proof. intros Hk. unfold result, get. by rewrite Hk. Qed.

Lemma result_boolean (o : obj) (k : string) (b : bool) :
  o !! k = Some (VBool b) → result o k (VBool false) = VBool b.
Proof. intros Hk. unfold result, get. by rewrite Hk. Qed.

Lemma normalizeObject_statsLike (o : obj) (d f l : bool) :
  statsLike o d f l →
  normalizeObject o !! "isDirectory" = Some (VBool d) ∧
  normalizeObject o !! "isFile" = Some (VBool f) ∧
  normalizeObject o !! "isSymbolicLink" = Some (VBool l).
Proof.
  intros (Hd & Hf & Hl).
  rewrite !normalizeObject_indicator by (unfold indicators; set_solver).
  by rewrite (result_method _ _ _ Hd), (result_method _ _ _ Hf),
    (result_method _ _ _ Hl).
Qed.

Lemma normalizeObject_settled (o : obj) (d f l : bool) :
  statsLike o d f l → normalizeObject (normalizeObject o) = normalizeObject o.
Proof.
  intros Ho. destruct (normalizeObject_statsLike o d f l Ho) as (Hd & Hf & Hl).
  apply map_eq. intros k.
  destruct (decide (k ∈ indicators)) as [Hk|Hk]; [|by apply normalizeObject_other].
  rewrite normalizeObject_indicator by done.
  unfold indicators in Hk.
  apply elem_of_cons in Hk as [->|Hk]; [|apply elem_of_cons in Hk as [->|Hk];
    [|apply list_elem_of_singleton in Hk as ->]].
  - by rewrite (result_boolean _ _ _ Hd).
  - by rewrite (result_boolean _ _ _ Hf).
  - by rewrite (result_boolean _ _ _ Hl).
Qed.

(** X5.  On an object with the three methods of [fs.Stats], [normalizeStats]
    puts the booleans the methods return in their place, leaves every other
    property as it was, and changes nothing when it runs again. *)
Theorem normalizeStats_materializes (o : obj) (d f l : bool) :
  statsLike o d f l →
  ∃ o', normalizeStats (Some o) = Some o' ∧
    o' !! "isDirectory" = Some (VBool d) ∧
    o' !! "isFile" = Some (VBool f) ∧
    o' !! "isSymbolicLink" = Some (VBool l) ∧
    (∀ k, k ∉ indicators → o' !! k = o !! k) ∧
    normalizeStats (Some o') = Some o'.
Proof.
  intros Ho. destruct (normalizeObject_statsLike o d f l Ho) as (Hd & Hf & Hl).
  exists (normalizeObject o). split; [done|]. split_and!; try done.
  - intros k. apply normalizeObject_other.
  - cbn [normalizeStats]. f_equal. by eapply normalizeObject_settled.
Qed.

(** X6.  When [lstat] succeeds, [getStats] resolves, without logging, with
    the indicators of the [lstat] result as booleans and its other
    properties unchanged: a symbolic link is reported as one. *)
Theorem getStats_reports_link (filename : string) (o : obj) (d f l : bool) (s : state) :
  fs_lstat N (resolveHomeDirectory N filename) = Returned o →
  statsLike o d f l →
  ∃ snapshot,
    getStats N filename s = (Returned (Some snapshot), s) ∧
    snapshot !! "isDirectory" = Some (VBool d) ∧
    snapshot !! "isFile" = Some (VBool f) ∧
    snapshot !! "isSymbolicLink" = Some (VBool l) ∧
    (∀ k, k ∉ indicators → snapshot !! k = o !! k).
Proof.
  intros Hlstat Ho. rewrite getStats_run. cbv zeta. rewrite Hlstat.
  destruct (normalizeObject_statsLike o d f l Ho) as (Hd & Hf & Hl).
  exists (normalizeObject o). split_and!; try done.
  intros k. apply normalizeObject_other.
Qed.

(** X7.  [getStats] and [readDirectory] take a path in placeholder form for
    the path with the home directory in its place. *)
Theorem placeholder_form_accepted (rest : string) (s : state) :
  startsWith (os_homedir N) "/" = true → plain (os_homedir N) = true →
  getStats N ("~" +:+ rest) s = getStats N (os_homedir N +:+ rest) s ∧
  getStats N ("%HOME%" +:+ rest) s = getStats N (os_homedir N +:+ rest) s ∧
  readDirectory N ("~" +:+ rest) s = readDirectory N (os_homedir N +:+ rest) s.
Proof.
  intros Habs Hplain. rewrite !getStats_run. cbv zeta. unfold readDirectory.
  rewrite resolveHomeDirectory_tilde, resolveHomeDirectory_percent by done.
  rewrite (resolveHomeDirectory_other N (os_homedir N +:+ rest))
    by by apply startsWith_absolute.
  done.
Qed.

Lemma entrySnapshot_path (dirPath filename : string) (v : value) :
  entrySnapshot N dirPath filename = Some v →
  path_of v = VStr (Path.join [dirPath; filename]).
Proof.
  unfold entrySnapshot. destruct (statResolution N _) as [[o|]|e]; [|done..].
  intros [= <-]. unfold path_of, get, assign, parsed_object.
  erewrite lookup_union_r; [by rewrite lookup_insert_eq|].
  by simplify_map_eq.
Qed.

Lemma omap_snapshot_paths (dirPath : string) (filenames : list string) :
  path_of <$> omap (entrySnapshot N dirPath) filenames =
  (λ n, VStr (Path.join [dirPath; n])) <$>
    filter (λ n, resolves N (Path.join [dirPath; n]) = true) filenames.
Proof.
  induction filenames as [|n ns IH]; [done|].
  cbn [omap list_omap]. fold (omap (entrySnapshot N dirPath) ns).
  destruct (entrySnapshot N dirPath n) as [v|] eqn:Hn.
  - rewrite filter_cons_True.
    + rewrite !fmap_cons, IH. f_equal. by eapply entrySnapshot_path.
    + destruct (resolves N _) eqn:Hr; [done|].
      apply resolves_snapshot in Hr. congruence.
  - rewrite filter_cons_False; [done|].
    apply resolves_snapshot in Hn. by rewrite Hn.
Qed.

(** X8.  The [path] of the listed entries are the directory joined with the
    names whose stat resolution succeeds, in the order of the enumeration. *)
Theorem readDirectory_paths (dirPath : string) (filenames : list string) (s : state) :
  let d := resolveHomeDirectory N dirPath in
  fs_readdir N d = Returned filenames →
  ∃ listing s',
    readDirectory N dirPath s = (Returned listing, s') ∧
    path_of <$> listing =
      (λ n, VStr (Path.join [d; n])) <$>
        filter (λ n, resolves N (Path.join [d; n]) = true) filenames.
Proof.
  cbv zeta. unfold readDirectory. intros Hdir.
  unfold mbind, M_bind at 1. unfold settle. rewrite Hdir.
  unfold mbind, M_bind. rewrite mapM_readEntry. unfold mret, M_ret.
  rewrite compact_snapshots. eexists _, _. split; [done|].
  apply omap_snapshot_paths.
Qed.

Lemma statWarnings_not_failed (fullPath : string) :
  filter getStatsFailed (statWarnings N fullPath) = [].
Proof.
  unfold statWarnings. rewrite getStats_run. cbv zeta.
  destruct (fs_lstat N _); simpl; [done|]. by destruct (fs_stat N _).
Qed.

Lemma entryWarnings_count (dirPath filename : string) :
  length (filter getStatsFailed (entryWarnings N dirPath filename)) =
  if resolves N (Path.join [dirPath; filename]) then 0 else 1.
Proof.
  unfold entryWarnings, resolves, readEntry.
  unfold try_catch, mbind, M_bind. rewrite getStats_frame.
  pose proof (statResolution_object N (Path.join [dirPath; filename])) as Hobj.
  pose proof (statWarnings_not_failed (Path.join [dirPath; filename])) as Hw.
  destruct (statResolution N _) as [[o|]|e]; [| done |]; run.
  - by rewrite Hw.
  - rewrite filter_app, Hw. done.
Qed.

Lemma warnings_count (d : string) (filenames : list string) :
  length (filter getStatsFailed (mjoin (entryWarnings N d <$> filenames))) =
  length (filter (λ n, resolves N (Path.join [d; n]) = false) filenames).
Proof.
  induction filenames as [|n ns IH]; [done|].
  rewrite fmap_cons.
  change (mjoin (entryWarnings N d n :: (entryWarnings N d <$> ns)))
    with (entryWarnings N d n ++ mjoin (entryWarnings N d <$> ns)).
  rewrite filter_app, length_app, IH, entryWarnings_count.
  destruct (resolves N (Path.join [d; n])) eqn:Hr.
  - by rewrite filter_cons_False by by rewrite Hr.
  - by rewrite filter_cons_True by done.
Qed.

(** X9.  [readDirectory] only adds to the log, and adds exactly one
    [getStats failed] warning for each dropped entry; the registry and the
    watchers are as before. *)
Theorem readDirectory_warning_count (dirPath : string) (filenames : list string)
    (s : state) :
  let d := resolveHomeDirectory N dirPath in
  fs_readdir N d = Returned filenames →
  ∃ listing s' added,
    readDirectory N dirPath s = (Returned listing, s') ∧
    logged s' = logged s ++ added ∧
    length (filter getStatsFailed added) =
      length (filter (λ n, resolves N (Path.join [d; n]) = false) filenames) ∧
    fileWatchers s' = fileWatchers s ∧ store s' = store s.
Proof.
  cbv zeta. unfold readDirectory. intros Hdir.
  unfold mbind, M_bind at 1. unfold settle. rewrite Hdir.
  unfold mbind, M_bind. rewrite mapM_readEntry. unfold mret, M_ret.
  eexists _, _, (mjoin (entryWarnings N (resolveHomeDirectory N dirPath) <$> filenames)).
  split; [done|]. split; [done|]. split; [|done].
  apply warnings_count.
Qed.

End MoreFiles.

(** ** More of the registry *)

Section MoreRegistry.

Context (N : node).

(** X10.  [stopWatching] with a registered identity closes the watcher of
    that identity and no other, and removes that registration and no
    other. *)
Theorem stopWatching_one (id : string) (h : nat) (s : state) :
  id ≠ "" → fileWatchers s !! id = Some h →
  ∃ s', stopWatching (Some id) s = (Returned (), s') ∧
    fileWatchers s' !! id = None ∧
    (∀ id', id' ≠ id → fileWatchers s' !! id' = fileWatchers s !! id') ∧
    store s' !! h = close_watcher <$> store s !! h ∧
    (∀ h', h' ≠ h → store s' !! h' = store s !! h') ∧
    calls s' = calls s ++ [CClose h].
Proof.
  intros Hid Hh. rewrite (stopWatching_registered id h) by done.
  eexists. split; [done|]. cbn [fileWatchers store calls]. split_and!.
  - apply lookup_delete_eq.
  - intros id' Hne. by apply lookup_delete_ne.
  - by rewrite closed_by_lookup, decide_True by by left.
  - intros h' Hne. rewrite closed_by_lookup, decide_False.
    + by destruct (store s !! h').
    + by intros ->%list_elem_of_singleton.
  - done.
Qed.

(** X11.  Stopping a registered identity twice: the first call returns, the
    second throws. *)
Theorem stopWatching_twice (id : string) (h : nat) (s : state) :
  id ≠ "" → fileWatchers s !! id = Some h →
  ∃ s' e, stopWatching (Some id) s = (Returned (), s') ∧
          stopWatching (Some id) s' = (Thrown e, s').
Proof.
  intros Hid Hh. rewrite (stopWatching_registered id h) by done.
  edestruct (stopWatching_unregistered id) as [e He]; [done| |].
  2: { eexists _, e. split; [done|]. exact He. }
  apply lookup_delete_eq.
Qed.

(** X12.  After [stopWatching] without an identity, in a consistent state,
    no identity has an active session. *)
Theorem stopWatching_all_no_active (requesterId : option string) (s : state) :
  consistent s → given requesterId = None →
  ∀ id, activeSessions (snd (stopWatching requesterId s)) id = [].
Proof.
  intros (_ & Hreg & _) Hgiven id. rewrite stopWatching_all by done.
  apply elem_of_nil_inv. intros h (w & Hw & _ & Hc)%elem_of_activeSessions.
  cbn [snd store] in Hw. apply closed_by_open in Hw as [Hnotin Hw]; [|done].
  destruct Hnotin. apply list_elem_of_fmap.
  exists (w_requester w, h). split; [done|].
  apply elem_of_map_to_list. by apply Hreg.
Qed.


(** X14.  In a state the module reaches, [startWatching] for one identity
    leaves the registration and the watcher of every other identity as they
    were, whether it returns or throws. *)
Theorem startWatching_independent
    (ipcEmitter : nat) (id id' : string) (t : target) (h' : nat) (s : state) :
  reachable N s → id ≠ "" → id' ≠ id → fileWatchers s !! id' = Some h' →
  let s' := snd (startWatching N ipcEmitter id t s) in
  fileWatchers s' !! id' = Some h' ∧
  store s' !! h' = store s !! h'.
Proof.
  intros (Hown & _)%reachable_sound Hid Hne Hh'.
  destruct (startWatching_run N ipcEmitter id t s)
    as (out & hs & fw & -> & _ & Hhs & _ & Hfw & _).
  cbn [snd fileWatchers store]. split; [by rewrite Hfw|].
  destruct (Hown id' h' Hh') as (w' & Hw' & Hr').
  rewrite closed_by_lookup, lookup_app_l by by eapply lookup_lt_Some.
  rewrite decide_False; [by rewrite Hw'|].
  intros Hh%Hhs; [|done].
  destruct (Hown id h' Hh) as (w & Hw & Hr). congruence.
Qed.

(** X15.  [startWatching] for an identity that is not registered closes
    nothing: one watcher is added to the store and one call goes to
    chokidar.  When the identity is not a name of [Object.prototype] the
    call returns and the identity is registered; when it is one, the call
    throws after the watcher is created, and the watcher is left open and
    registered nowhere. *)
Theorem startWatching_first
    (ipcEmitter : nat) (id : string) (t : target) (s : state) :
  fileWatchers s !! id = None →
  ∃ out s', startWatching N ipcEmitter id t s = (out, s') ∧
    store s' = store s ++ [started N id ipcEmitter t] ∧
    calls s' = calls s ++ [CWatch (length (store s))] ∧
    (inherited id = false →
       out = Returned () ∧
       fileWatchers s' = <[id := length (store s)]> (fileWatchers s)) ∧
    (inherited id = true →
       (∃ e, out = Thrown e) ∧ fileWatchers s' = fileWatchers s ∧
       length (store s) ∈ activeSessions s' id).
Proof.
  intros Hnone. destruct (inherited id) eqn:Hinh.
  - rewrite startWatching_inherited by done. eexists _, _. split; [done|].
    cbn [store calls fileWatchers]. split_and!; try done.
    intros _. split_and!; [by eexists | done |].
    apply elem_of_activeSessions. exists (started N id ipcEmitter t).
    cbn [store]. split; [by apply list_lookup_middle | done].
  - rewrite startWatching_unregistered by done. eexists _, _. split; [done|].
    cbn [store calls fileWatchers]. by split_and!.
Qed.

(** X16.  When something is registered under the empty string,
    [startWatching] with the empty string closes the watcher of every
    registered identity, and leaves those registrations in place. *)
Theorem startWatching_empty_identity
    (ipcEmitter : nat) (t : target) (h : nat) (s : state) :
  fileWatchers s !! "" = Some h →
  ∃ s', startWatching N ipcEmitter "" t s = (Returned (), s') ∧
    (∀ id' h' w, fileWatchers s !! id' = Some h' → store s !! h' = Some w →
       store s' !! h' = Some (close_watcher w)) ∧
    (∀ id', id' ≠ "" → fileWatchers s' !! id' = fileWatchers s !! id').
Proof.
  intros Hh. rewrite (startWatching_empty N _ _ h) by done.
  eexists. split; [done|]. cbn [fileWatchers store]. split.
  - intros id' h' w Hh' Hw.
    rewrite closed_by_lookup, lookup_app_l by by eapply lookup_lt_Some.
    rewrite Hw, decide_True; [done|].
    apply list_elem_of_fmap. exists (id', h'). split; [done|].
    by apply elem_of_map_to_list.
  - intros id' Hne. by rewrite lookup_insert_ne.
Qed.

(** X17.  [stopWatching] and then [startWatching] for a registered identity:
    the old watcher is closed before the new one is created, and the new one
    is the only active session of the identity. *)
Theorem stop_then_start
    (ipcEmitter : nat) (id : string) (t : target) (h : nat) (s : state) :
  consistent s → id ≠ "" → fileWatchers s !! id = Some h →
  let s1 := snd (stopWatching (Some id) s) in
  let s2 := snd (startWatching N ipcEmitter id t s1) in
  calls s2 = calls s ++ [CClose h; CWatch (length (store s))] ∧
  fileWatchers s2 !! id = Some (length (store s)) ∧
  activeSessions s2 id = [length (store s)].
Proof.
  intros (_ & Hreg & Hkeys) Hid Hh s1 s2. unfold s2, s1.
  pose proof (Hkeys id h Hh) as Hinh.
  rewrite (stopWatching_registered id h) by done. cbn [snd].
  rewrite startWatching_unregistered by (done || apply lookup_delete_eq).
  cbn [snd fileWatchers store calls]. rewrite closed_by_length.
  split_and!.
  - by rewrite <- app_assoc.
  - apply lookup_insert_eq.
  - apply NoDup_only; [apply activeSessions_NoDup|].
    intros h'. rewrite elem_of_activeSessions. cbn [store]. split.
    + intros (w & Hw & Hr & Hc).
      apply lookup_snoc_Some in Hw as [[_ Hw]|[Hlen _]].
      * apply closed_by_open in Hw as [Hnotin Hw]; [|done].
        destruct Hnotin. apply list_elem_of_singleton.
        apply Hreg in Hw; [|done]. congruence.
      * by rewrite closed_by_length in Hlen.
    + intros ->. exists (started N id ipcEmitter t). split; [|done].
      rewrite <- (closed_by_length [h] (store s)). by apply list_lookup_middle.
Qed.

(** X18.  In every state that [startWatching], [addWatching] and
    [stopWatching] reach from the start: no identity that is not a name of
    [Object.prototype] has more than one active session; every registered
    handle is a watcher started for that identity; no registered identity
    is a name of [Object.prototype]; and every watcher that is not closed,
    unless it was started for such a name, is registered. *)
Theorem reachable_one_active (s : state) :
  reachable N s →
  (∀ id, inherited id = false → length (activeSessions s id) ≤ 1) ∧
  (∀ id h, fileWatchers s !! id = Some h →
     ∃ w, store s !! h = Some w ∧ w_requester w = id) ∧
  (∀ id h, fileWatchers s !! id = Some h → inherited id = false) ∧
  (∀ h w, store s !! h = Some w → w_closed w = false →
     inherited (w_requester w) = false →
     fileWatchers s !! w_requester w = Some h).
Proof.
  intros Hs%reachable_sound. split_and!.
  - intros id. by apply sound_at_most_one.
  - apply Hs.
  - apply Hs.
  - apply Hs.
Qed.

Lemma resolveTarget_paths (t : target) (p : string) :
  p ∈ target_paths (resolveTarget N t) →
  ∃ q, q ∈ target_paths t ∧ p = resolveHomeDirectory N q.
Proof.
  destruct t as [q|qs]; cbn [resolveTarget target_paths].
  - intros ->%list_elem_of_singleton. exists q. split; [by left|done].
  - intros (q & -> & Hq)%list_elem_of_fmap. eauto.
Qed.

End MoreRegistry.

(** ** More of the translator, and what chokidar is told to ignore *)

Section MoreTranslator.

Context (N : node).

(** X19.  With an absolute home directory that has no dollar sign, no path
    of the target that [startWatching] hands to chokidar starts with a
    placeholder.  The watcher is the one at the next free handle of the
    store, whether the call returns or throws. *)
Theorem watch_targets_resolved
    (ipcEmitter : nat) (id : string) (t : target) (s : state) :
  startsWith (os_homedir N) "/" = true → plain (os_homedir N) = true →
  let s' := snd (startWatching N ipcEmitter id t s) in
  ∃ w, store s' !! length (store s) = Some w ∧
    w_targets w = [resolveTarget N t] ∧
    ∀ tg p, tg ∈ w_targets w → p ∈ target_paths tg →
      startsWith p "~" = false ∧ startsWith p "%HOME%" = false.
Proof.
  intros Habs Hplain.
  destruct (startWatching_run N ipcEmitter id t s) as (out & hs & fw & -> & _).
  cbn [snd store].
  exists ((if decide (length (store s) ∈ hs) then close_watcher else (λ w, w))
            (started N id ipcEmitter t)).
  split.
  { by rewrite closed_by_lookup, list_lookup_middle. }
  assert (w_targets ((if decide (length (store s) ∈ hs) then close_watcher
                      else (λ w, w)) (started N id ipcEmitter t))
          = [resolveTarget N t]) as ->.
  { by case_decide. }
  split; [done|].
  intros tg p ->%list_elem_of_singleton Hp.
  apply resolveTarget_paths in Hp as (q & _ & ->).
  by apply resolved_without_placeholder.
Qed.

Lemma bareEvent_no_details (eventType filePath : string) :
  bareEvent eventType filePath !! "details" = None.
Proof.
  unfold bareEvent. rewrite !lookup_insert_ne by done.
  by rewrite lookup_singleton_ne.
Qed.

(** X20.  The event has [details] exactly when the raw detail is an object
    whose [isDirectory], with [false] for a default and called when it is a
    method, is not [undefined]; then nothing is logged, and otherwise one
    diagnostic is. *)
Theorem getFileSystemChangeToken_details_iff
    (eventType filePath : string) (details : option obj) (s : state) :
  ∃ event s',
    getFileSystemChangeToken N eventType filePath details s = (Returned event, s') ∧
    (is_Some (event !! "details") ↔
       ∃ d, details = Some d ∧ defined (result d "isDirectory" (VBool false)) = true) ∧
    (is_Some (event !! "details") → s' = s) ∧
    (event !! "details" = None →
       ∃ shown, logged s' = logged s ++
         [{| level := "info";
             args := [VStr "HEEEEEY"; VStr eventType; VStr filePath; shown] |}]).
Proof.
  destruct details as [d|].
  - rewrite getFileSystemChangeToken_object.
    destruct (defined _) eqn:Hdef; eexists _, _; (split; [done|]).
    + rewrite lookup_insert_eq. split_and!; [|done|done].
      split; [intros _; by exists d | by eexists].
    + rewrite bareEvent_no_details. split_and!.
      * split; [by intros [? ?] | intros (d' & [= <-] & Hd'); congruence].
      * by intros [? ?].
      * intros _. by eexists.
  - rewrite getFileSystemChangeToken_undefined. eexists _, _. split; [done|].
    rewrite bareEvent_no_details. split_and!.
    + split; [by intros [? ?] | by intros (d' & ? & _)].
    + by intros [? ?].
    + intros _. by eexists.
Qed.

Lemma parsed_object_lookup (p : parsed_path) (k : string) :
  k ∉ detailNames → parsed_object p !! k = None.
Proof.
  unfold detailNames, parsed_object. intros Hk.
  rewrite !lookup_insert_ne; [apply lookup_singleton_ne|..];
    intros <-; apply Hk; set_solver.
Qed.

(** X21.  For a raw detail with the three methods of [fs.Stats], [details]
    holds the path of the event, the three booleans, the parts of the parsed
    path, and every other property of the raw detail that is not named like
    one of those. *)
Theorem getFileSystemChangeToken_stats_details
    (eventType filePath : string) (d : obj) (isDir isFile isLink : bool) (s : state) :
  statsLike d isDir isFile isLink →
  ∃ event details,
    getFileSystemChangeToken N eventType filePath (Some d) s = (Returned event, s) ∧
    event !! "details" = Some (VObj details) ∧
    details !! "path" = Some (VStr filePath) ∧
    details !! "isDirectory" = Some (VBool isDir) ∧
    details !! "isFile" = Some (VBool isFile) ∧
    details !! "isSymbolicLink" = Some (VBool isLink) ∧
    details !! "base" = Some (VStr (base (path_posix_parse N filePath))) ∧
    details !! "ext" = Some (VStr (ext (path_posix_parse N filePath))) ∧
    (∀ k, k ∉ indicators → k ∉ detailNames → details !! k = d !! k).
Proof.
  intros Hd. rewrite getFileSystemChangeToken_object.
  destruct (normalizeObject_statsLike d isDir isFile isLink Hd) as (HD & HF & HL).
  pose proof (normalizeObject_settled d isDir isFile isLink Hd) as Hidem.
  pose proof (normalizeObject_other d) as Hother.
  assert (result d "isDirectory" (VBool false) = VBool isDir) as ->.
  { destruct Hd as (Hd & _). by apply result_method. }
  cbn [defined]. eexists _, (eventDetails N filePath d).
  split; [done|]. split; [by rewrite lookup_insert_eq|].
  unfold eventDetails, assign. rewrite Hidem.
  assert (∀ k, k ∉ detailNames →
            (parsed_object (path_posix_parse N filePath)
             ∪ <["path" := VStr filePath]> (normalizeObject d)) !! k
            = normalizeObject d !! k) as Hrest.
  { intros k Hk. rewrite lookup_union_r by by apply parsed_object_lookup.
    apply lookup_insert_ne. intros <-. apply Hk. unfold detailNames. by left. }
  split_and!.
  - rewrite lookup_union_r by by unfold parsed_object; simplify_map_eq.
    apply lookup_insert_eq.
  - rewrite Hrest; [done|]. not_listed.
  - rewrite Hrest; [done|]. not_listed.
  - rewrite Hrest; [done|]. not_listed.
  - apply lookup_union_Some_raw. left. unfold parsed_object. by simplify_map_eq.
  - apply lookup_union_Some_raw. left. unfold parsed_object. by simplify_map_eq.
  - intros k Hk Hk'. rewrite Hrest by done. by apply Hother.
Qed.

(** X22.  The listener on ['all'] sends the event of the translator, once,
    on the channel [dispatch]/[files] of its [ipcEmitter], logs it, and
    leaves the registry, the watchers and chokidar alone. *)
Theorem on_all_sends_event
    (ipcEmitter : nat) (eventType filePath : string) (details : option obj)
    (s : state) :
  ∃ event s1 s',
    getFileSystemChangeToken N eventType filePath details s = (Returned event, s1) ∧
    on_all N ipcEmitter eventType filePath details s = (Returned (), s') ∧
    sent s' = sent s ++ [(ipcEmitter, [VStr "dispatch"; VStr "files"; VObj event])] ∧
    logged s' = logged s1 ++
      [{| level := "info"; args := [VStr "All event info:"; VObj event] |}] ∧
    fileWatchers s' = fileWatchers s ∧ store s' = store s ∧ calls s' = calls s.
Proof.
  unfold on_all, mbind, M_bind.
  destruct details as [d|].
  - rewrite getFileSystemChangeToken_object.
    destruct (defined _); by eexists _, _, _.
  - rewrite getFileSystemChangeToken_undefined. by eexists _, _, _.
Qed.

End MoreTranslator.

Section Ignored.

Lemma units_ascii (s : string) :
  ascii_only s = true → units s = N_of_ascii <$> list_ascii_of_string s.
Proof.
  induction s as [|c s IH]; [done|].
  cbn [ascii_only]. intros [Hc Hs]%andb_true_iff.
  cbn [units list_ascii_of_string fmap list_fmap]. rewrite Hc.
  f_equal. by apply IH.
Qed.

Lemma dot_pattern_here (rest : list N) :
  matches_here [OneOf ["/"%char; "\"%char]; Lit "."%char] rest = true ↔
  ∃ after, rest = units "/." ++ after ∨ rest = units "\." ++ after.
Proof.
  split.
  - destruct rest as [|c [|d after]]; cbn [matches_here atom_matches existsb];
      rewrite ?andb_false_r; try done.
    rewrite andb_true_r, orb_false_r.
    intros [[Hc|Hc]%orb_true_iff Hd]%andb_true_iff;
      apply N.eqb_eq in Hc as ->; apply N.eqb_eq in Hd as ->;
      exists after; (by left) || (by right).
  - by intros (after & [-> | ->]).
Qed.

Lemma log_pattern_here (rest : list N) :
  matches_here
    [Lit "r"%char; Lit "o"%char; Lit "d"%char; Lit "e"%char;
     Lit "o"%char; AnyChar; Lit "l"%char; Lit "o"%char; Lit "g"%char] rest = true ↔
  ∃ u after, rest = units "rodeo" ++ u :: units "log" ++ after ∧
             lineTerminator u = false.
Proof.
  split.
  - destruct rest as [|c1 [|c2 [|c3 [|c4 [|c5 [|u [|c7 [|c8 [|c9 after]]]]]]]]];
      cbn [matches_here atom_matches]; rewrite ?andb_false_r; try done.
    rewrite andb_true_r. rewrite !andb_true_iff.
    intros (H1 & H2 & H3 & H4 & H5 & Hu & H7 & H8 & H9).
    apply N.eqb_eq in H1 as ->. apply N.eqb_eq in H2 as ->.
    apply N.eqb_eq in H3 as ->. apply N.eqb_eq in H4 as ->.
    apply N.eqb_eq in H5 as ->. apply N.eqb_eq in H7 as ->.
    apply N.eqb_eq in H8 as ->. apply N.eqb_eq in H9 as ->.
    apply negb_true_iff in Hu. by exists u, after.
  - intros (u & after & -> & Hu).
    change (units "rodeo" ++ u :: units "log" ++ after)
      with (N_of_ascii "r" :: N_of_ascii "o" :: N_of_ascii "d" :: N_of_ascii "e"
            :: N_of_ascii "o" :: u :: N_of_ascii "l" :: N_of_ascii "o"
            :: N_of_ascii "g" :: after).
    cbn [matches_here atom_matches]. rewrite !N.eqb_refl, Hu. done.
Qed.

(** X23.  chokidar is told to ignore exactly the paths in which a slash or a
    backslash is followed by a dot, and the paths that contain [rodeo], any
    one code unit but a line terminator, and [log]. *)
Theorem ignoredPath_iff (p : string) :
  ignoredPath p = true ↔
  (∃ before after, units p = before ++ units "/." ++ after
                   ∨ units p = before ++ units "\." ++ after) ∨
  (∃ before u after, units p = before ++ units "rodeo" ++ u :: units "log" ++ after ∧
                     lineTerminator u = false).
Proof.
  unfold ignoredPath. cbn [ignored watchOptions existsb].
  unfold test. rewrite orb_false_r, orb_true_iff, !search_iff. split.
  - intros [(before & rest & -> & Hm)|(before & rest & -> & Hm)].
    + left. apply dot_pattern_here in Hm as (after & [-> | ->]);
        exists before, after; (by left) || (by right).
    + right. apply log_pattern_here in Hm as (u & after & -> & Hu).
      by exists before, u, after.
  - intros [(before & after & [-> | ->])|(before & u & after & -> & Hu)].
    + left. eexists _, _. split; [done|]. apply dot_pattern_here. eauto.
    + left. eexists _, _. split; [done|]. apply dot_pattern_here. eauto.
    + right. eexists _, _. split; [done|]. apply log_pattern_here. eauto.
Qed.

End Ignored.

(** ** The file viewer *)

Section ViewerFacts.

Import Viewer.

Context (I : imports) (st : appState).

(** X24.  When the listing and the watch request succeed, [getViewedFiles]
    writes its argument to the console, asks for the listing, dispatches it
    once, merged into [SET_VIEWED_PATH], then asks for the directory's [*]
    to be watched under [file-viewer], in that order, and resolves with the
    listing; a falsy argument stands for the viewed path of the state. *)
Theorem getViewedFiles_lists_then_watches
    (filePath : value) (p : string) (result : obj) (v : view) :
  effectivePath st filePath = VStr p →
  fileService_getFiles I (VStr p) = Returned result →
  fileService_startWatching I "file-viewer" (Path.join [p; "*"]) = Returned () →
  ∃ v', getViewedFiles I st filePath v = (Returned (VObj result), v') ∧
    history v' = history v ++
      [Wrote "log" [VStr "getViewedFiles"; filePath];
       Requested (GetFiles (VStr p));
       Dispatched (VObj (assign {[ "type" := VStr "SET_VIEWED_PATH";
                                   "targetPath" := VStr p ]} result));
       Requested (StartWatching "file-viewer" (Path.join [p; "*"]))] ∧
    dispatched v' = dispatched v ++
      [VObj (assign {[ "type" := VStr "SET_VIEWED_PATH";
                       "targetPath" := VStr p ]} result)] ∧
    requested v' = requested v ++
      [GetFiles (VStr p); StartWatching "file-viewer" (Path.join [p; "*"])].
Proof.
  unfold effectivePath, getViewedFiles. intros -> Hfiles Hwatch. steps.
  rewrite Hfiles. steps. unfold requesterId. rewrite Hwatch.
  eexists. split; [done|]. cbn [dispatched requested history].
  by rewrite <- !app_assoc.
Qed.

(** X25.  When the listing fails, [getViewedFiles] dispatches nothing and
    [setViewedPath] only its first, bare action; neither asks for a watch,
    the error goes to [console.error], and the promise resolves with
    [undefined]. *)
Theorem listing_failure_contained (filePath : value) (e : value) (v : view) :
  fileService_getFiles I (effectivePath st filePath) = Thrown e →
  (∃ v', getViewedFiles I st filePath v = (Returned VUndefined, v') ∧
     dispatched v' = dispatched v ∧
     requested v' = requested v ++ [GetFiles (effectivePath st filePath)] ∧
     last (console v') = Some ("error", [e])) ∧
  (∃ v', setViewedPath I st filePath v = (Returned VUndefined, v') ∧
     dispatched v' = dispatched v ++
       [VObj {[ "type" := VStr "SET_VIEWED_PATH";
                "targetPath" := effectivePath st filePath ]}] ∧
     requested v' = requested v ++ [GetFiles (effectivePath st filePath)] ∧
     last (console v') = Some ("error", [e])).
Proof.
  unfold effectivePath, getViewedFiles, setViewedPath. intros Hfiles. steps.
  rewrite Hfiles. steps.
  split; eexists; (split; [done|]); cbn [dispatched requested console];
    split_and!; try done; apply last_snoc.
Qed.

(** X26.  When the watch request fails after a listing, the listing has been
    dispatched, the error goes to [console.error], and the promise resolves
    with [undefined] rather than with the listing. *)
Theorem watch_failure_contained
    (filePath : value) (p : string) (result : obj) (e : value) (v : view) :
  effectivePath st filePath = VStr p →
  fileService_getFiles I (VStr p) = Returned result →
  fileService_startWatching I "file-viewer" (Path.join [p; "*"]) = Thrown e →
  ∃ v', getViewedFiles I st filePath v = (Returned VUndefined, v') ∧
    dispatched v' = dispatched v ++
      [VObj (assign {[ "type" := VStr "SET_VIEWED_PATH";
                       "targetPath" := VStr p ]} result)] ∧
    last (console v') = Some ("error", [e]).
Proof.
  unfold effectivePath, getViewedFiles. intros -> Hfiles Hwatch. steps.
  rewrite Hfiles. steps. unfold requesterId. rewrite Hwatch.
  eexists. split; [done|]. cbn [dispatched console]. split; [done|]. apply last_snoc.
Qed.

(** X27.  [setViewedPath] dispatches the bare [SET_VIEWED_PATH] action and
    then dispatches, requests and returns what [getViewedFiles] does. *)
Theorem setViewedPath_announces_first (filePath : value) (v : view) :
  ∃ out v1 v2,
    getViewedFiles I st filePath
      {| dispatched := dispatched v ++
           [VObj {[ "type" := VStr "SET_VIEWED_PATH";
                    "targetPath" := effectivePath st filePath ]}];
         requested := requested v; console := console v;
         history := history v ++
           [Dispatched (VObj {[ "type" := VStr "SET_VIEWED_PATH";
                                "targetPath" := effectivePath st filePath ]})]
      |} = (out, v1) ∧
    setViewedPath I st filePath v = (out, v2) ∧
    dispatched v2 = dispatched v1 ∧ requested v2 = requested v1.
Proof.
  unfold effectivePath, getViewedFiles, setViewedPath. steps.
  set (p := if truthy filePath then filePath else fileView_path st).
  destruct (fileService_getFiles I p) as [result|e]; [|by eexists _, _, _].
  destruct p as [| | | |q| | |]; steps; try by eexists _, _, _.
  destruct (fileService_startWatching I requesterId (Path.join [q; "*"]));
    by eexists _, _, _.
Qed.

(** X28.  [openViewedFile] on a directory is [setViewedPath] on its path; on
    anything else it does nothing at all without an editor tab group, and
    with one it dispatches the [add] action of the first group once the
    stats arrive, or rejects with their error, which it does not catch. *)
Theorem openViewedFile_routes (file : obj) (v : view) :
  (truthy (get file "isDirectory") = true →
     openViewedFile I st file v = setViewedPath I st (get file "path") v) ∧
  (truthy (get file "isDirectory") = false → editorTabGroups st = [] →
     openViewedFile I st file v = (Returned VUndefined, v)) ∧
  (∀ group groups stats,
     truthy (get file "isDirectory") = false →
     editorTabGroups st = group :: groups →
     fileService_getFileStats I (get file "path") = Returned stats →
     ∃ v', openViewedFile I st file v =
             (Returned (editorTabGroupActions_add I (get group "groupId")
                          (get file "path") stats), v') ∧
       dispatched v' = dispatched v ++
         [editorTabGroupActions_add I (get group "groupId") (get file "path") stats] ∧
       requested v' = requested v ++ [GetFileStats (get file "path")]) ∧
  (∀ group groups e,
     truthy (get file "isDirectory") = false →
     editorTabGroups st = group :: groups →
     fileService_getFileStats I (get file "path") = Thrown e →
     ∃ v', openViewedFile I st file v = (Thrown e, v') ∧
           dispatched v' = dispatched v).
Proof.
  unfold openViewedFile. split_and!.
  - by intros ->.
  - by intros -> ->.
  - intros group groups stats -> -> Hstats. steps. rewrite Hstats. by eexists.
  - intros group groups e -> -> Hstats. steps. rewrite Hstats. by eexists.
Qed.

Lemma filter_is_start_snoc (rs : list request) (r : request) :
  is_start r = false → filter is_start (rs ++ [r]) = filter is_start rs.
Proof.
  intros Hr. rewrite filter_app.
  rewrite filter_cons_False by (rewrite Hr; simpl; tauto).
  by rewrite filter_nil, app_nil_r.
Qed.

(** X29.  [expandFolder] never asks for a watch to be started: for a path
    whose listing succeeds it asks for the watch to be extended, with an
    empty item path it only asks for the files of [undefined], and it always
    resolves. *)
Theorem expandFolder_keeps_session (itemPath : list obj) (v : view) :
  ∃ out v', expandFolder I itemPath v = (Returned out, v') ∧
    filter is_start (requested v') = filter is_start (requested v) ∧
    (itemPath = [] →
       out = VUndefined ∧ requested v' = requested v ++ [GetFiles VUndefined]) ∧
    (∀ p result,
       last_path itemPath = VStr p →
       fileService_getFiles I (VStr p) = Returned result →
       requested v' = requested v ++
         [GetFiles (VStr p); AddWatchingFiles "file-viewer" (Path.join [p; "*"])]).
Proof.
  unfold expandFolder. steps.
  destruct (decide (itemPath = [])) as [->|Hne].
  { cbn [last_path last]. destruct (fileService_getFiles I VUndefined); steps;
      eexists _, _; (split; [done|]); cbn [dispatched requested];
      (split_and!; [by rewrite filter_is_start_snoc | done | done]). }
  destruct (fileService_getFiles I (last_path itemPath)) as [result|e] eqn:Hfiles; steps.
  - destruct (last_path itemPath) as [| | | |q| | |] eqn:Hlast; steps;
      try (eexists _, _; split; [done|]; cbn [dispatched requested];
           split_and!; [by rewrite filter_is_start_snoc | by intros -> | done]).
    destruct (fileService_addWatchingFiles I requesterId (Path.join [q; "*"]));
      eexists _, _; (split; [done|]); cbn [dispatched requested];
      (split_and!; [by rewrite !filter_is_start_snoc | by intros -> |]);
      intros p result' [= <-] _; by rewrite <- app_assoc.
  - eexists _, _. split; [done|]. cbn [dispatched requested].
    split_and!; [by rewrite filter_is_start_snoc | by intros -> |].
    intros p result Hp Hr. rewrite Hp in Hfiles. congruence.
Qed.

End ViewerFacts.

(** ** More of the functions at work *)

Section MoreExamples.

Import Sample Tour.

Lemma both_reachable : reachable world both.
Proof. apply reachable_start, reachable_start, reachable_initial. Defined.

Lemma both_consistent : consistent both.
Proof.
  unfold both, watching. rewrite !startWatching_unregistered by done.
  split_and!; cbn [snd fileWatchers store initial app length].
  - intros id h [[_ <-]|[_ [[_ <-]|[_ ?]]%lookup_insert_Some]]%lookup_insert_Some;
      [lia | lia | done].
  - intros h w Hw _. destruct h as [|[|h]]; [| |done].
    + by injection Hw as <-.
    + by injection Hw as <-.
  - intros id h [[<- _]|[_ [[<- _]|[_ ?]]%lookup_insert_Some]]%lookup_insert_Some;
      done.
Defined.

Lemma resolveHomeDirectory_no_placeholder_witness :
  startsWith (resolveHomeDirectory world "~/docs") "~" = false ∧
  startsWith (resolveHomeDirectory world "~/docs") "%HOME%" = false.
Proof. exact (resolveHomeDirectory_no_placeholder world eq_refl eq_refl "~/docs"). Defined.

Lemma resolveHomeDirectory_idempotent_witness :
  resolveHomeDirectory world (resolveHomeDirectory world "%HOME%/x")
    = resolveHomeDirectory world "%HOME%/x".
Proof. exact (resolveHomeDirectory_idempotent world eq_refl eq_refl "%HOME%/x"). Defined.

Lemma resolveHomeDirectory_tokens_agree_witness :
  resolveHomeDirectory world "%HOME%/docs" = "/home/u/docs" ∧
  resolveHomeDirectory world "~/docs" = "/home/u/docs".
Proof. exact (resolveHomeDirectory_tokens_agree world eq_refl eq_refl "/docs"). Defined.

Lemma shorten_then_resolve_witness :
  resolveHomeDirectory world
    (getWithHomeDirectoryShortName world "/home/u/docs/a.txt")
    = "/home/u/docs/a.txt".
Proof.
  exact (proj1 (shorten_then_resolve world eq_refl eq_refl "docs/a.txt" eq_refl)).
Defined.

Lemma stats_statsLike (d f l : bool) (size : Z) : statsLike (stats d f l size) d f l.
Proof. split_and!; reflexivity. Defined.

Lemma normalizeStats_materializes_witness :
  ∃ o', normalizeStats (Some (stats true false false 0)) = Some o' ∧
        o' !! "isDirectory" = Some (VBool true) ∧
        normalizeStats (Some o') = Some o'.
Proof.
  destruct (normalizeStats_materializes (stats true false false 0) true false false
              (stats_statsLike _ _ _ _)) as (o' & Ho' & Hd & _ & _ & _ & Hidem).
  exists o'. split; [exact Ho'|]. split; [exact Hd | exact Hidem].
Defined.

Lemma getStats_reports_link_witness :
  ∃ snapshot,
    getStats world "~/docs/sub" initial = (Returned (Some snapshot), initial) ∧
    snapshot !! "isDirectory" = Some (VBool true).
Proof.
  destruct (getStats_reports_link world "~/docs/sub" (stats true false false 0)
              true false false initial eq_refl (stats_statsLike _ _ _ _))
    as (snapshot & Hrun & Hd & _).
  exists snapshot. split; [exact Hrun | exact Hd].
Defined.

Lemma placeholder_form_accepted_witness :
  getStats world "~/docs/sub" initial = getStats world "/home/u/docs/sub" initial.
Proof.
  exact (proj1 (placeholder_form_accepted world "/docs/sub" initial eq_refl eq_refl)).
Defined.

Lemma readDirectory_paths_witness :
  ∃ listing s',
    readDirectory world "~/docs" initial = (Returned listing, s') ∧
    path_of <$> listing =
      [VStr "/home/u/docs/a.txt"; VStr "/home/u/docs/sub"; VStr "/home/u/docs/link"].
Proof.
  destruct (readDirectory_paths world "~/docs" ["a.txt"; "gone"; "sub"; "link"]
              initial eq_refl) as (listing & s' & Hrun & Hpaths).
  exists listing, s'. split; [exact Hrun|]. rewrite Hpaths. vm_compute. reflexivity.
Defined.

Lemma readDirectory_warning_count_witness :
  ∃ listing s' added,
    readDirectory world "~/docs" initial = (Returned listing, s') ∧
    logged s' = logged initial ++ added ∧
    length (filter getStatsFailed added) = 1.
Proof.
  destruct (readDirectory_warning_count world "~/docs" ["a.txt"; "gone"; "sub"; "link"]
              initial eq_refl) as (listing & s' & added & Hrun & Hlog & Hcount & _).
  exists listing, s', added. split; [exact Hrun|]. split; [exact Hlog|].
  rewrite Hcount. vm_compute. reflexivity.
Defined.

Lemma file_viewer_given : "file-viewer" ≠ "".
Proof. discriminate. Defined.

Lemma stopWatching_one_witness :
  ∃ s', stopWatching (Some "file-viewer") watching = (Returned (), s') ∧
        fileWatchers s' !! "file-viewer" = None ∧
        calls s' = calls watching ++ [CClose 0].
Proof.
  destruct (stopWatching_one "file-viewer" 0 watching file_viewer_given eq_refl)
    as (s' & Hrun & Hnone & _ & _ & _ & Hcalls).
  exists s'. split; [exact Hrun|]. split; [exact Hnone | exact Hcalls].
Defined.

Lemma stopWatching_twice_witness :
  ∃ s' e, stopWatching (Some "file-viewer") watching = (Returned (), s') ∧
          stopWatching (Some "file-viewer") s' = (Thrown e, s').
Proof. exact (stopWatching_twice "file-viewer" 0 watching file_viewer_given eq_refl). Defined.

Lemma stopWatching_all_no_active_witness :
  activeSessions (snd (stopWatching None both)) "plots" = [].
Proof.
  exact (stopWatching_all_no_active None both both_consistent eq_refl "plots").
Defined.


Lemma plots_not_file_viewer : "file-viewer" ≠ "plots".
Proof. discriminate. Defined.

Lemma plots_given : "plots" ≠ "".
Proof. discriminate. Defined.

Lemma startWatching_independent_witness :
  fileWatchers (snd (startWatching world 1 "plots" (One "~/other/*") both))
    !! "file-viewer" = Some 0 ∧
  store (snd (startWatching world 1 "plots" (One "~/other/*") both)) !! 0
    = store both !! 0.
Proof.
  exact (startWatching_independent world 1 "plots" "file-viewer" (One "~/other/*")
           0 both both_reachable plots_given plots_not_file_viewer eq_refl).
Defined.

Lemma startWatching_first_witness :
  ∃ s', startWatching world 0 "file-viewer" (One "~/docs/*") initial
          = (Returned (), s') ∧
        calls s' = [CWatch 0] ∧
        fileWatchers s' = {[ "file-viewer" := 0 ]}.
Proof.
  destruct (startWatching_first world 0 "file-viewer" (One "~/docs/*") initial eq_refl)
    as (out & s' & Hrun & _ & Hcalls & Hplain & _).
  destruct (Hplain eq_refl) as [-> Hfw].
  exists s'. split; [exact Hrun|]. split; [exact Hcalls | exact Hfw].
Defined.

(** A caller that gives [constructor] for its identity, twice: both calls
    throw, nothing is registered, and two watchers are left open. *)
Lemma startWatching_inherited_leaks :
  ∃ e s1 s2,
    startWatching world 3 "constructor" (One "~/a") initial = (Thrown e, s1) ∧
    startWatching world 3 "constructor" (One "~/b") s1 = (Thrown e, s2) ∧
    fileWatchers s2 = ∅ ∧
    calls s2 = [CWatch 0; CWatch 1] ∧
    activeSessions s2 "constructor" = [0; 1].
Proof.
  eexists _, _, _. split; [reflexivity|]. split; [reflexivity|].
  split_and!; vm_compute; reflexivity.
Qed.

Lemma startWatching_empty_identity_witness :
  ∃ s', startWatching world 2 "" (One "~/c") anonymous = (Returned (), s') ∧
        fileWatchers s' !! "file-viewer" = Some 0 ∧
        w_closed <$> store s' !! 0 = Some true.
Proof.
  destruct (startWatching_empty_identity world 2 (One "~/c") 1 anonymous eq_refl)
    as (s' & Hrun & Hclosed & Hkept).
  exists s'. split; [exact Hrun|]. split.
  - rewrite (Hkept "file-viewer" file_viewer_given). reflexivity.
  - rewrite (Hclosed "file-viewer" 0 (started world "file-viewer" 0 (One "~/docs/*"))
               eq_refl eq_refl).
    reflexivity.
Defined.

Lemma stop_then_start_witness :
  calls (snd (startWatching world 0 "file-viewer" (One "~/other/*")
                (snd (stopWatching (Some "file-viewer") watching))))
    = calls watching ++ [CClose 0; CWatch 1].
Proof.
  exact (proj1 (stop_then_start world 0 "file-viewer" (One "~/other/*") 0 watching
                  watching_consistent file_viewer_given eq_refl)).
Defined.

Lemma reachable_one_active_witness :
  length (activeSessions both "plots") ≤ 1.
Proof.
  exact (proj1 (reachable_one_active world both both_reachable) "plots" eq_refl).
Defined.

Lemma watch_targets_resolved_witness :
  ∃ w,
    store (snd (startWatching world 2 "" (Many ["~/a"; "%HOME%/b"]) watching)) !! 1
      = Some w ∧
    w_targets w = [Many ["/home/u/a"; "/home/u/b"]] ∧
    ∀ tg p, tg ∈ w_targets w → p ∈ target_paths tg →
      startsWith p "~" = false ∧ startsWith p "%HOME%" = false.
Proof.
  exact (watch_targets_resolved world 2 "" (Many ["~/a"; "%HOME%/b"]) watching
           eq_refl eq_refl).
Defined.

Lemma getFileSystemChangeToken_stats_details_witness :
  ∃ event details,
    getFileSystemChangeToken world "addDir" "/home/u/docs/new"
      (Some (stats true false false 0)) initial = (Returned event, initial) ∧
    event !! "details" = Some (VObj details) ∧
    details !! "isDirectory" = Some (VBool true) ∧
    details !! "size" = Some (VNum 0).
Proof.
  destruct (getFileSystemChangeToken_stats_details world "addDir" "/home/u/docs/new"
              (stats true false false 0) true false false initial
              (stats_statsLike _ _ _ _))
    as (event & details & Hrun & He & _ & Hd & _ & _ & _ & _ & Hother).
  exists event, details. split; [exact Hrun|]. split; [exact He|].
  split; [exact Hd|]. rewrite (Hother "size"); [reflexivity | not_listed | not_listed].
Defined.

Lemma getViewedFiles_lists_then_watches_witness :
  ∃ v', Viewer.getViewedFiles imports viewing VUndefined Viewer.blank
          = (Returned (VObj listing), v') ∧
    Viewer.history v' =
      [Viewer.Wrote "log" [VStr "getViewedFiles"; VUndefined];
       Viewer.Requested (Viewer.GetFiles (VStr "/home/u/docs"));
       Viewer.Dispatched
         (VObj (assign {[ "type" := VStr "SET_VIEWED_PATH";
                          "targetPath" := VStr "/home/u/docs" ]} listing));
       Viewer.Requested (Viewer.StartWatching "file-viewer" "/home/u/docs/*")].
Proof.
  destruct (getViewedFiles_lists_then_watches imports viewing VUndefined
              "/home/u/docs" listing Viewer.blank eq_refl eq_refl eq_refl)
    as (v' & Hrun & Hhistory & _).
  exists v'. split; [exact Hrun | exact Hhistory].
Defined.

Lemma listing_failure_contained_witness :
  ∃ v', Viewer.getViewedFiles imports viewing (VStr "/nowhere") Viewer.blank
          = (Returned VUndefined, v') ∧
        Viewer.dispatched v' = [].
Proof.
  destruct (listing_failure_contained imports viewing (VStr "/nowhere") NotFound
              Viewer.blank eq_refl) as [(v' & Hrun & Hd & _) _].
  exists v'. split; [exact Hrun | exact Hd].
Defined.

Lemma watch_failure_contained_witness :
  ∃ v', Viewer.getViewedFiles
          {| Viewer.fileService_getFiles := λ _, Returned listing;
             Viewer.fileService_getFileStats := Viewer.fileService_getFileStats imports;
             Viewer.fileService_startWatching := Viewer.fileService_startWatching imports;
             Viewer.fileService_addWatchingFiles :=
               Viewer.fileService_addWatchingFiles imports;
             Viewer.editorTabGroupActions_add := Viewer.editorTabGroupActions_add imports |}
          viewing (VStr "/home/u/locked") Viewer.blank
          = (Returned VUndefined, v') ∧
        last (Viewer.console v') = Some ("error", [NotFound]).
Proof.
  destruct (watch_failure_contained
              {| Viewer.fileService_getFiles := λ _, Returned listing;
                 Viewer.fileService_getFileStats := Viewer.fileService_getFileStats imports;
                 Viewer.fileService_startWatching := Viewer.fileService_startWatching imports;
                 Viewer.fileService_addWatchingFiles :=
                   Viewer.fileService_addWatchingFiles imports;
                 Viewer.editorTabGroupActions_add := Viewer.editorTabGroupActions_add imports |}
              viewing (VStr "/home/u/locked") "/home/u/locked" listing NotFound
              Viewer.blank eq_refl eq_refl eq_refl)
    as (v' & Hrun & _ & Hconsole).
  exists v'. split; [exact Hrun | exact Hconsole].
Defined.

Lemma openViewedFile_routes_witness :
  Viewer.openViewedFile imports viewing {[ "path" := VStr "/home/u/docs/a.txt" ]}
    Viewer.blank = (Returned VUndefined, Viewer.blank).
Proof.
  destruct (openViewedFile_routes imports viewing
              {[ "path" := VStr "/home/u/docs/a.txt" ]} Viewer.blank)
    as (_ & Hnone & _).
  exact (Hnone eq_refl eq_refl).
Defined.

Lemma expandFolder_keeps_session_witness :
  ∃ out v', Viewer.expandFolder imports [{[ "path" := VStr "/home/u/docs" ]}]
              Viewer.blank = (Returned out, v') ∧
    Viewer.requested v' =
      [Viewer.GetFiles (VStr "/home/u/docs");
       Viewer.AddWatchingFiles "file-viewer" "/home/u/docs/*"].
Proof.
  destruct (expandFolder_keeps_session imports [{[ "path" := VStr "/home/u/docs" ]}]
              Viewer.blank) as (out & v' & Hrun & _ & _ & Hreq).
  exists out, v'. split; [exact Hrun|].
  exact (Hreq "/home/u/docs" listing eq_refl eq_refl).
Defined.

(** What chokidar ignores, at work.  The dot of [/rodeo.log/] takes the
    one code unit of [é], which is two bytes, and not the two code units of
    a character outside the basic plane, nor the line separator U+2028; a
    name that starts with a dot is ignored below a separator and not at the
    start of a relative path. *)
Lemma ignoredPath_at_work :
  ignoredPath "/home/u/docs/.git" = true ∧
  ignoredPath ".git" = false ∧
  ignoredPath "/x/rodeo.log" = true ∧
  ignoredPath "/x/rodeoélog" = true ∧
  ignoredPath "/x/rodeo😀log" = false ∧
  units (String "226" (String "128" (String "168" "log")))
    = 8232%N :: units "log" ∧
  ignoredPath ("/x/rodeo" +:+ String "226" (String "128" (String "168" "log")))
    = false ∧
  ignoredPath ("/x/rodeo" +:+ String "010" "log") = false.
Proof. split_and!; vm_compute; reflexivity. Qed.

End MoreExamples.
